(** * ffmpeg-player: the playback controller and its track queue

    A shallow embedding of [src/player/audio-player.ts] (class [Player]) and of
    the queue it consumes through the [IAudioQueue] interface.

    The controller is a single-threaded, callback-driven object.  Every method
    and every callback body is embedded as a computation in a small
    state-and-log monad over the fields of the class; the log records, in
    program order, each call that leaves the object ([emit], [kill], [end],
    timers, promise continuations).  A method that contains an [await] is cut
    at the [await]: the part before it registers a continuation in the log and
    the part after it is the body run when that continuation is resumed.

    Not modelled: console output, the listeners attached by the application
    (they are assumed not to call back into the controller while an [emit] is
    in progress), and the audio data itself. *)

From Stdlib Require Import ZArith QArith String List Bool Lia.
From stdpp Require Import base option list gmap strings.
Import ListNotations.

Local Open Scope string_scope.
Local Open Scope list_scope.

(** ** JavaScript values used by the controller *)

(** Truthiness of a [string | undefined]: [undefined] and the empty string are
    falsy, every other string is truthy. *)
Definition truthy (v : option string) : bool :=
  match v with
  | None => false
  | Some EmptyString => false
  | Some (String _ _) => true
  end.

(** An [Error] object, with the optional [code] property Node attaches to
    stream errors. *)
Record JsError := mkError {
  message : string;
  code : option string
}.

#[export] Instance JsError_eq_dec : EqDecision JsError.
Proof. solve_decision. Defined.

Definition ERR_STREAM_WRITE_AFTER_END : string := "ERR_STREAM_WRITE_AFTER_END".

(** ** The track queue *)

Module AudioQueue.

(** Modelled from the spec: [src/player/audio-queue.ts] (class [AudioQueue]
    behind the interface [IAudioQueue]) is not among the sources; only its
    importers and the README table of its methods are.  The definitions
    follow section 4.1 of the specification: an ordered sequence of file
    references, [add] appends to the tail, [getNext] removes and returns the
    head or an absent value, [peek] returns the head without removing it,
    [list] returns a snapshot, [clear] removes every entry. *)
Definition t : Type := list string.

Definition empty : t := [].

Definition add (ref : string) (q : t) : t := q ++ [ref].

Definition getNext (q : t) : option string * t :=
  match q with
  | [] => (None, [])
  | x :: rest => (Some x, rest)
  end.

Definition peek (q : t) : option string := head q.

Definition list (q : t) : Datatypes.list string := q.

Definition clear (q : t) : t := [].

(** The operations a caller can apply, and the value each one returns. *)
Inductive Op :=
| OpAdd (ref : string)
| OpGetNext
| OpPeek
| OpList
| OpClear.

Inductive Ret :=
| RUnit
| RTrack (v : option string)
| RList (l : Datatypes.list string).

Definition apply (o : Op) (q : t) : Ret * t :=
  match o with
  | OpAdd ref => (RUnit, add ref q)
  | OpGetNext => let '(v, q') := getNext q in (RTrack v, q')
  | OpPeek => (RTrack (peek q), q)
  | OpList => (RList (list q), q)
  | OpClear => (RUnit, clear q)
  end.

(** Running a sequence of operations, collecting the returned values. *)
Fixpoint run (ops : Datatypes.list Op) (q : t) : Datatypes.list Ret * t :=
  match ops with
  | [] => ([], q)
  | o :: ops' =>
      let '(r, q1) := apply o q in
      let '(rs, q2) := run ops' q1 in
      (r :: rs, q2)
  end.

(** What was added, and what [getNext] handed out, since the last [clear]
    (or since the start when there was none), given what was already
    pending before the sequence ran. *)
Fixpoint added (ops : Datatypes.list Op) (acc : Datatypes.list string)
  : Datatypes.list string :=
  match ops with
  | [] => acc
  | OpAdd ref :: ops' => added ops' (acc ++ [ref])
  | OpClear :: ops' => added ops' []
  | _ :: ops' => added ops' acc
  end.

Fixpoint taken (ops : Datatypes.list Op) (q : t) (acc : Datatypes.list string)
  : Datatypes.list string :=
  match ops with
  | [] => acc
  | o :: ops' =>
      let q' := snd (apply o q) in
      match o, fst (apply o q) with
      | OpGetNext, RTrack (Some x) => taken ops' q' (acc ++ [x])
      | OpClear, _ => taken ops' q' []
      | _, _ => taken ops' q' acc
      end
  end.

(** *** Arrays as heap objects

    [list()] hands the caller an array.  To say that writing to that array
    leaves the queue alone, arrays live in a store indexed by reference and
    the queue object holds the reference of its private array. *)
Abbreviation Store := (gmap nat (Datatypes.list string)).

Record Obj := mkObj { queue : nat }.

(** A reference not yet in use. *)
Definition alloc (h : Store) : nat := fresh (dom h).

(** Contents of the queue's private array. *)
Definition contents (h : Store) (o : Obj) : Datatypes.list string :=
  default [] (h !! queue o).

Definition h_add (ref : string) (o : Obj) (h : Store) : Store :=
  <[queue o := add ref (contents h o)]> h.

Definition h_getNext (o : Obj) (h : Store) : option string * Store :=
  let '(v, q') := getNext (contents h o) in (v, <[queue o := q']> h).

Definition h_peek (o : Obj) (h : Store) : option string := peek (contents h o).

(** [list()]: a fresh array holding a copy of the current order. *)
Definition h_list (o : Obj) (h : Store) : nat * Store :=
  let r := alloc h in (r, <[r := list (contents h o)]> h).

Definition h_clear (o : Obj) (h : Store) : Store :=
  <[queue o := clear (contents h o)]> h.

(** Any in-place mutation of the array behind reference [r] (push, pop,
    splice, index assignment, [length = 0]) replaces its contents. *)
Definition mutate (r : nat) (f : Datatypes.list string -> Datatypes.list string)
  (h : Store) : Store :=
  match h !! r with
  | Some a => <[r := f a]> h
  | None => h
  end.

End AudioQueue.

(** ** The controller's data *)

(** [{channels, sampleRate, bitDepth}] as resolved by [getAudioMetadata]. *)
Record AudioFormat := mkFormat {
  channels : Z;
  sampleRate : Z;
  bitDepth : Z
}.

(** The output sink, [new Speaker({channels, bitDepth, sampleRate})]. *)
Record Speaker := mkSpeaker { sink_format : AudioFormat }.

(** The decode task, [ffmpeg(input).toFormat('s16le').audioChannels(c).audioFrequency(f)].
    [input] is [this.currentTrack] at the time the command is built. *)
Record FfmpegCommand := mkCommand {
  input : option string;
  audioChannels : Z;
  audioFrequency : Z
}.

(** The handle returned by [setInterval]. *)
Record Timeout := mkTimeout { period : Z }.

(** Public events, with their payloads.  A track payload is
    [this.currentTrack], a [string | null]. *)
Inductive Event :=
| EvStart (track : option string)
| EvProgress (track : option string) (elapsed : Q)
| EvStop (track : option string)
| EvEnd (track : option string)
| EvQueueEnd
| EvError (err : JsError).

(** Suspended activations of [play]: where an [await] left off. *)
Inductive Cont :=
| KConfigured (filePath : option string)
    (* after [await this.configureFFmpeg()] *)
| KProbed
    (* after [await this.getAudioMetadata(this.currentTrack)] *).

(** The function handed to [setTimeout]: always [() => this.play(arg)]. *)
Inductive Callback :=
| CbPlay (filePath : option string).

(** Everything a method or callback does that is visible outside the fields
    of the object, in program order.  Writes to the latch are logged too, so
    that their position relative to the teardown calls can be stated. *)
Inductive Action :=
| AEmit (e : Event)
| AWriteLatch (b : bool)
| AKill (c : FfmpegCommand)
| AEnd (s : Speaker)
| AClearInterval (h : Timeout)
| ASetInterval (h : Timeout)
| ASetTimeout (cb : Callback) (delay : Z)
| AAwait (k : Cont)
| AProbe (filePath : option string)
| ANewSpeaker (s : Speaker)
| APipe (c : FfmpegCommand) (s : Speaker)
| ARemoveAllListeners
| AReject.

(** The fields of [class Player].  [audioQueue] holds the contents of the
    queue object the controller was constructed with. *)
Record Player := mkPlayer {
  audioQueue : AudioQueue.t;
  isFFmpegConfigured : bool;
  isPlaying : bool;
  isPaused : bool;
  currentTrack : option string;
  pausedTime : Z;
  ffmpegCommand : option FfmpegCommand;
  speaker : option Speaker;
  startTime : Z;
  progressInterval : option Timeout;
  _isStoppingIntentionally : bool
}.

(** The state right after [new Player(audioQueue)]. *)
Definition new_Player (q : AudioQueue.t) : Player :=
  {| audioQueue := q;
     isFFmpegConfigured := false;
     isPlaying := false;
     isPaused := false;
     currentTrack := None;
     pausedTime := 0;
     ffmpegCommand := None;
     speaker := None;
     startTime := 0;
     progressInterval := None;
     _isStoppingIntentionally := false |}.

(** Field assignments. *)
Definition set_audioQueue (v : AudioQueue.t) (p : Player) : Player :=
  mkPlayer v (isFFmpegConfigured p) (isPlaying p) (isPaused p) (currentTrack p)
    (pausedTime p) (ffmpegCommand p) (speaker p) (startTime p)
    (progressInterval p) (_isStoppingIntentionally p).
Definition set_isFFmpegConfigured (v : bool) (p : Player) : Player :=
  mkPlayer (audioQueue p) v (isPlaying p) (isPaused p) (currentTrack p)
    (pausedTime p) (ffmpegCommand p) (speaker p) (startTime p)
    (progressInterval p) (_isStoppingIntentionally p).
Definition set_isPlaying (v : bool) (p : Player) : Player :=
  mkPlayer (audioQueue p) (isFFmpegConfigured p) v (isPaused p) (currentTrack p)
    (pausedTime p) (ffmpegCommand p) (speaker p) (startTime p)
    (progressInterval p) (_isStoppingIntentionally p).
Definition set_isPaused (v : bool) (p : Player) : Player :=
  mkPlayer (audioQueue p) (isFFmpegConfigured p) (isPlaying p) v (currentTrack p)
    (pausedTime p) (ffmpegCommand p) (speaker p) (startTime p)
    (progressInterval p) (_isStoppingIntentionally p).
Definition set_currentTrack (v : option string) (p : Player) : Player :=
  mkPlayer (audioQueue p) (isFFmpegConfigured p) (isPlaying p) (isPaused p) v
    (pausedTime p) (ffmpegCommand p) (speaker p) (startTime p)
    (progressInterval p) (_isStoppingIntentionally p).
Definition set_ffmpegCommand (v : option FfmpegCommand) (p : Player) : Player :=
  mkPlayer (audioQueue p) (isFFmpegConfigured p) (isPlaying p) (isPaused p)
    (currentTrack p) (pausedTime p) v (speaker p) (startTime p)
    (progressInterval p) (_isStoppingIntentionally p).
Definition set_speaker (v : option Speaker) (p : Player) : Player :=
  mkPlayer (audioQueue p) (isFFmpegConfigured p) (isPlaying p) (isPaused p)
    (currentTrack p) (pausedTime p) (ffmpegCommand p) v (startTime p)
    (progressInterval p) (_isStoppingIntentionally p).
Definition set_startTime (v : Z) (p : Player) : Player :=
  mkPlayer (audioQueue p) (isFFmpegConfigured p) (isPlaying p) (isPaused p)
    (currentTrack p) (pausedTime p) (ffmpegCommand p) (speaker p) v
    (progressInterval p) (_isStoppingIntentionally p).
Definition set_progressInterval (v : option Timeout) (p : Player) : Player :=
  mkPlayer (audioQueue p) (isFFmpegConfigured p) (isPlaying p) (isPaused p)
    (currentTrack p) (pausedTime p) (ffmpegCommand p) (speaker p) (startTime p)
    v (_isStoppingIntentionally p).
Definition set__isStoppingIntentionally (v : bool) (p : Player) : Player :=
  mkPlayer (audioQueue p) (isFFmpegConfigured p) (isPlaying p) (isPaused p)
    (currentTrack p) (pausedTime p) (ffmpegCommand p) (speaker p) (startTime p)
    (progressInterval p) v.

(** ** The state-and-log monad *)

Definition M (A : Type) : Type := Player -> A * Player * list Action.

Definition ret {A} (a : A) : M A := fun p => (a, p, []).

Definition bind {A B} (m : M A) (f : A -> M B) : M B :=
  fun p =>
    let '(a, p1, t1) := m p in
    let '(b, p2, t2) := f a p1 in
    (b, p2, t1 ++ t2).

Definition get : M Player := fun p => (p, p, []).
Definition modify (f : Player -> Player) : M unit := fun p => (tt, f p, []).
Definition tell (a : Action) : M unit := fun p => (tt, p, [a]).

Declare Scope player_scope.
Delimit Scope player_scope with player.
Notation "'let*' x := m 'in' k" := (bind m (fun x => k))
  (at level 10, x name, m at level 100, k at level 200) : player_scope.
Notation "m ;;; k" := (bind m (fun _ => k))
  (at level 100, k at level 200, right associativity) : player_scope.
Local Open Scope player_scope.

(** Projections of a finished computation. *)
Definition state_of {A} (r : A * Player * list Action) : Player := snd (fst r).
Definition trace_of {A} (r : A * Player * list Action) : list Action := snd r.
Definition value_of {A} (r : A * Player * list Action) : A := fst (fst r).

(** [this.emit(name, payload)]. *)
Definition emit (e : Event) : M unit := tell (AEmit e).

(** [this._isStoppingIntentionally = b]. *)
Definition write_latch (b : bool) : M unit :=
  tell (AWriteLatch b) ;;; modify (set__isStoppingIntentionally b).

(** [this.audioQueue.getNext()]. *)
Definition queue_getNext : M (option string) :=
  let* p := get in
  let '(v, q') := AudioQueue.getNext (audioQueue p) in
  modify (set_audioQueue q') ;;; ret v.

(** ** The environment

    What the controller asks of the outside world and gets an immediate
    answer to: whether a path exists ([fs.existsSync]) and whether the
    FFmpeg detector finds usable binaries. *)
Record Env := mkEnv {
  existsSync : string -> bool;
  detectFFmpeg : bool
}.

(** How the setup sequence inside [play]'s [try] block turns out: the probe
    may reject, and each later constructor call may throw. *)
Inductive Setup :=
| ProbeRejected (e : JsError)
| SpeakerThrew (metadata : AudioFormat) (e : JsError)
| FfmpegThrew (metadata : AudioFormat) (e : JsError)
| PipeThrew (metadata : AudioFormat) (e : JsError)
| SetupCompleted (metadata : AudioFormat).

(** ** Methods and callbacks of [Player] *)

Definition _stopProgressTracker : M unit :=
  let* p := get in
  match progressInterval p with
  | Some h => tell (AClearInterval h) ;;; modify (set_progressInterval None)
  | None => ret tt
  end.

Definition _startProgressTracker : M unit :=
  _stopProgressTracker ;;;
  tell (ASetInterval (mkTimeout 1000)) ;;;
  modify (set_progressInterval (Some (mkTimeout 1000))).

Definition _cleanup : M unit :=
  _stopProgressTracker ;;;
  (let* p := get in
   match ffmpegCommand p with
   | Some c => tell (AKill c) ;;; modify (set_ffmpegCommand None)
   | None => ret tt
   end) ;;;
  (let* p := get in
   match speaker p with
   | Some s => tell (AEnd s) ;;; modify (set_speaker None)
   | None => ret tt
   end) ;;;
  modify (set_currentTrack None) ;;;
  modify (set_isPlaying false) ;;;
  modify (set_isPaused false) ;;;
  modify (set_startTime 0).

(** [play], up to [await this.configureFFmpeg()]. *)
Definition play (filePath : option string) : M unit :=
  let* p := get in
  if isPlaying p then ret tt
  else tell (AAwait (KConfigured filePath)).

(** [configureFFmpeg]: [true] when it returns, [false] when it throws. *)
Definition configureFFmpeg (env : Env) : M bool :=
  let* p := get in
  if isFFmpegConfigured p then ret true
  else if detectFFmpeg env
       then modify (set_isFFmpegConfigured true) ;;; ret true
       else ret false.

(** [play], from the end of [await this.configureFFmpeg()] to
    [await this.getAudioMetadata(...)].  The whole of [configureFFmpeg],
    detection included, is taken to happen when this part is resumed; when it
    throws, the promise returned by [play] rejects. *)
Definition play_configured (env : Env) (filePath : option string) : M unit :=
  let* ok := configureFFmpeg env in
  if negb ok then tell AReject
  else
    let* trackToPlay :=
      (if truthy filePath then ret filePath else queue_getNext) in
    if negb (truthy trackToPlay) then emit EvQueueEnd
    else
      let track := default EmptyString trackToPlay in
      _cleanup ;;;
      if negb (existsSync env track) then
        emit (EvError (mkError ("File not found: " +:+ track) None)) ;;;
        play None
      else
        modify (set_currentTrack (Some track)) ;;;
        modify (set_isPlaying true) ;;;
        modify (set_isPaused false) ;;;
        write_latch false ;;;
        let* p := get in
        tell (AProbe (currentTrack p)) ;;;
        tell (AAwait KProbed).

(** The [catch] block of [play]. *)
Definition play_catch (e : JsError) : M unit :=
  emit (EvError e) ;;; _cleanup.

Definition new_speaker (metadata : AudioFormat) : M unit :=
  tell (ANewSpeaker (mkSpeaker metadata)) ;;;
  modify (set_speaker (Some (mkSpeaker metadata))).

Definition new_ffmpegCommand (metadata : AudioFormat) : M unit :=
  let* p := get in
  modify (set_ffmpegCommand
            (Some (mkCommand (currentTrack p) (channels metadata) (sampleRate metadata)))).

(** [this.ffmpegCommand.pipe(this.speaker, { end: true })]. *)
Definition pipe : M unit :=
  let* p := get in
  match ffmpegCommand p, speaker p with
  | Some c, Some s => tell (APipe c s)
  | _, _ => ret tt
  end.

(** [play], from the end of [await this.getAudioMetadata(...)] on. *)
Definition play_probed (o : Setup) : M unit :=
  match o with
  | ProbeRejected e => play_catch e
  | SpeakerThrew metadata e => play_catch e
  | FfmpegThrew metadata e => new_speaker metadata ;;; play_catch e
  | PipeThrew metadata e =>
      new_speaker metadata ;;; new_ffmpegCommand metadata ;;; play_catch e
  | SetupCompleted metadata =>
      new_speaker metadata ;;; new_ffmpegCommand metadata ;;; pipe
  end.

Definition stop : M unit :=
  let* p := get in
  if negb (isPlaying p) then ret tt
  else
    emit (EvStop (currentTrack p)) ;;;
    write_latch true ;;;
    _cleanup.

Definition pause : M unit := stop.

Definition is_null (v : option string) : bool :=
  match v with None => true | Some _ => false end.

Definition resume : M unit :=
  let* p := get in
  if negb (isPlaying p) && is_null (currentTrack p) then play None
  else if negb (is_null (currentTrack p)) && negb (isPlaying p)
       then play (currentTrack p)
  else if isPlaying p then ret tt
  else ret tt.

Definition skip : M unit :=
  stop ;;; tell (ASetTimeout (CbPlay None) 100).

Definition destroy : M unit :=
  _cleanup ;;; tell ARemoveAllListeners.

(** Of [reconfigureFFmpeg], what touches the controller: the flag is reset
    and configuration runs again. *)
Definition reconfigureFFmpeg (env : Env) : M unit :=
  modify (set_isFFmpegConfigured false) ;;;
  let* ok := configureFFmpeg env in
  if ok then ret tt else tell AReject.

(** Elapsed seconds, [(Date.now() - this.startTime) / 1000], as a rational. *)
Definition seconds (ms : Z) : Q := Qmake ms 1000.

Definition getCurrentProgress (now : Z) (p : Player) : Q :=
  if negb (isPlaying p) then 0%Q
  else if isPaused p then seconds (pausedTime p)
  else seconds (now - startTime p).

Definition hasTrack (p : Player) : bool := negb (is_null (currentTrack p)).

(** [speaker.on('open', ...)]; [now] is [Date.now()]. *)
Definition on_speaker_open (now : Z) : M unit :=
  modify (set_startTime now) ;;;
  (let* p := get in emit (EvStart (currentTrack p))) ;;;
  _startProgressTracker.

(** The body of the [setInterval] callback. *)
Definition on_progress_tick (now : Z) : M unit :=
  let* p := get in
  if isPlaying p && negb (isPaused p)
  then emit (EvProgress (currentTrack p) (seconds (now - startTime p)))
  else ret tt.

Definition _handleTrackEnd : M unit :=
  let* p := get in
  if _isStoppingIntentionally p then ret tt
  else
    let finishedTrack := currentTrack p in
    emit (EvEnd finishedTrack) ;;;
    _cleanup ;;;
    let* nextTrack := queue_getNext in
    if truthy nextTrack
    then tell (ASetTimeout (CbPlay nextTrack) 100)
    else emit EvQueueEnd.

(** [speaker.on('close', ...)]. *)
Definition on_speaker_close : M unit := _handleTrackEnd.

(** [speaker.on('error', ...)]. *)
Definition on_speaker_error (err : JsError) : M unit :=
  let* p := get in
  if _isStoppingIntentionally p
     && bool_decide (code err = Some ERR_STREAM_WRITE_AFTER_END)
  then ret tt
  else emit (EvError err) ;;; _cleanup.

(** [ffmpegCommand.on('error', ...)]. *)
Definition on_ffmpeg_error (err : JsError) : M unit :=
  let* p := get in
  if _isStoppingIntentionally p then ret tt
  else emit (EvError err) ;;; _cleanup.

(** [ffmpegCommand.on('end', ...)]. *)
Definition on_ffmpeg_end : M unit := write_latch false.

(** A timer set with [setTimeout] fires. *)
Definition run_callback (cb : Callback) : M unit :=
  match cb with CbPlay filePath => play filePath end.

(** A suspended [play] is resumed; [o] is only read by [KProbed]. *)
Definition resume_cont (env : Env) (k : Cont) (o : Setup) : M unit :=
  match k with
  | KConfigured filePath => play_configured env filePath
  | KProbed => play_probed o
  end.

(** ** The controller as a transition system

    One input is one turn of the event loop that reaches the controller: a
    call from the application, a callback from the sink, the decoder or a
    timer, or the resumption of a suspended [play].  The application shares
    the queue object, so its queue calls are inputs as well.  Inputs may
    arrive in any order. *)
Inductive Input :=
| CallPlay (filePath : option string)
| CallPause
| CallResume
| CallStop
| CallSkip
| CallDestroy
| CallReconfigure
| CallQueue (o : AudioQueue.Op)
| Resume (k : Cont) (o : Setup)
| TimerFired (cb : Callback)
| ProgressTick (now : Z)
| SpeakerOpen (now : Z)
| SpeakerClose
| SpeakerError (err : JsError)
| FfmpegError (err : JsError)
| FfmpegEnd.

Definition exec (env : Env) (i : Input) : M unit :=
  match i with
  | CallPlay filePath => play filePath
  | CallPause => pause
  | CallResume => resume
  | CallStop => stop
  | CallSkip => skip
  | CallDestroy => destroy
  | CallReconfigure => reconfigureFFmpeg env
  | CallQueue o =>
      modify (fun p => set_audioQueue (snd (AudioQueue.apply o (audioQueue p))) p)
  | Resume k o => resume_cont env k o
  | TimerFired cb => run_callback cb
  | ProgressTick now => on_progress_tick now
  | SpeakerOpen now => on_speaker_open now
  | SpeakerClose => on_speaker_close
  | SpeakerError err => on_speaker_error err
  | FfmpegError err => on_ffmpeg_error err
  | FfmpegEnd => on_ffmpeg_end
  end.

(** Running a sequence of inputs. *)
Fixpoint run (env : Env) (inputs : list Input) : M unit :=
  match inputs with
  | [] => ret tt
  | i :: rest => exec env i ;;; run env rest
  end.

(** States the controller can be in, starting from [new Player(q)]. *)
Inductive reachable (env : Env) : Player -> Prop :=
| reach_new q : reachable env (new_Player q)
| reach_step p i : reachable env p -> reachable env (state_of (exec env i p)).



(** The events in a log, and how many satisfy a test. *)
Definition events (t : list Action) : list Event :=
  omap (fun a => match a with AEmit e => Some e | _ => None end) t.

Definition is_end (e : Event) : bool :=
  match e with EvEnd _ => true | _ => false end.
Definition is_start (e : Event) : bool :=
  match e with EvStart _ => true | _ => false end.
Definition is_queue_end (e : Event) : bool :=
  match e with EvQueueEnd => true | _ => false end.

Definition count (f : Event -> bool) (t : list Action) : nat :=
  length (filter (fun e => f e = true) (events t)).

(** Calls that tear a resource down. *)
Definition is_teardown (a : Action) : bool :=
  match a with AKill _ | AEnd _ => true | _ => false end.

(** * Definitions used by the statements *)

(** The fields after [_cleanup], and the calls it makes. *)
Definition cleaned (p : Player) : Player :=
  {| audioQueue := audioQueue p;
     isFFmpegConfigured := isFFmpegConfigured p;
     isPlaying := false;
     isPaused := false;
     currentTrack := None;
     pausedTime := pausedTime p;
     ffmpegCommand := None;
     speaker := None;
     startTime := 0;
     progressInterval := None;
     _isStoppingIntentionally := _isStoppingIntentionally p |}.

Definition teardown_calls (p : Player) : list Action :=
  option_list (AClearInterval <$> progressInterval p)
  ++ option_list (AKill <$> ffmpegCommand p)
  ++ option_list (AEnd <$> speaker p).

Ltac unfold_m :=
  unfold write_latch, emit, queue_getNext, bind, ret, get, modify, tell,
    state_of, trace_of, value_of in *.

(** A controller in the middle of a track: decoder running, sink open,
    progress timer armed. *)
Definition playing_example : Player :=
  {| audioQueue := ["b.mp3"];
     isFFmpegConfigured := true;
     isPlaying := true;
     isPaused := false;
     currentTrack := Some "a.mp3";
     pausedTime := 0;
     ffmpegCommand := Some (mkCommand (Some "a.mp3") 2 44100);
     speaker := Some (mkSpeaker (mkFormat 2 44100 16));
     startTime := 1000;
     progressInterval := Some (mkTimeout 1000);
     _isStoppingIntentionally := false |}.

(** An environment in which exactly the listed paths exist and FFmpeg is
    found. *)
Definition files (present : list string) : Env :=
  mkEnv (fun path => bool_decide (path ∈ present)) true.

(** The two errors a teardown provokes: the decoder reporting that it was
    killed, and the sink reporting a write after [end()]. *)
Definition sigkill : JsError := mkError "ffmpeg was killed with signal SIGKILL" None.
Definition write_after_end : JsError :=
  mkError "write after end" (Some ERR_STREAM_WRITE_AFTER_END).

(** A computation that never writes [false] to the latch and never leaves it
    cleared when it found it set. *)
Definition keeps_latch (r : unit * Player * list Action) (p : Player) : Prop :=
  (AWriteLatch false ∉ trace_of r)
  /\ (_isStoppingIntentionally p = true ->
      _isStoppingIntentionally (state_of r) = true).

Ltac crush_player p :=
  destruct p as [q cfg pl pa ct pt [c|] [s|] st [h|] latch];
  unfold keeps_latch, trace_of, state_of;
  rewrite ?list_elem_of_In.

(** The track [play] settles on, and the fields once it has been taken:
    the explicit path when it is truthy, else the queue's head, removed. *)
Definition resolved (filePath : option string) (p : Player)
  : option string * Player :=
  let r := (if truthy filePath then ret filePath else queue_getNext) p in
  (value_of r, state_of r).

(** The fields when [play] suspends on the metadata probe. *)
Definition loading (track : string) (p : Player) : Player :=
  set__isStoppingIntentionally false
    (set_isPaused false (set_isPlaying true (set_currentTrack (Some track) p))).

Definition file_not_found (track : string) : JsError :=
  mkError ("File not found: " +:+ track) None.

(** The continuation of [play] that reaches an existing file: the only input,
    besides the decoder's [end] callback, that writes [false] to the latch. *)
Definition play_resolves (env : Env) (i : Input) (p : Player) : Prop :=
  exists filePath o track,
    i = Resume (KConfigured filePath) o
    /\ existsSync env track = true
    /\ currentTrack (state_of (exec env i p)) = Some track
    /\ isPlaying (state_of (exec env i p)) = true.

(** The controller after [play()] on a queue holding one existing file, once
    setup has completed and the sink has opened; and after a [stop()] there. *)
Definition started_inputs : list Input :=
  [CallPlay None;
   Resume (KConfigured None) (SetupCompleted (mkFormat 2 44100 16));
   Resume KProbed (SetupCompleted (mkFormat 2 44100 16));
   SpeakerOpen 1000].

Definition started_example : Player :=
  Eval vm_compute in
    state_of (run (files ["a.mp3"]) started_inputs (new_Player ["a.mp3"])).

Definition stopped_example : Player :=
  Eval vm_compute in state_of (stop started_example).

(** Inputs that run some part of [play]: a call to it, directly or through
    [resume()] or a timer, and the resumption of a suspended activation. *)
Definition runs_play (i : Input) : bool :=
  match i with
  | CallPlay _ | CallResume | TimerFired _ | Resume _ _ => true
  | _ => false
  end.

(** A track is referenced exactly while the controller is playing: the two
    fields are always written together. *)
Definition track_iff_playing (p : Player) : Prop := isPlaying p = hasTrack p.

(** What C10 says of a state: no current track, so [hasTrack()] is false and
    [getCurrentProgress()] is 0 whatever the clock; the guard of the
    replaying branch of [resume()] is false, and [resume()] is [play()]. *)
Definition no_track_left (p : Player) : Prop :=
  currentTrack p = None
  /\ hasTrack p = false
  /\ (forall now, getCurrentProgress now p = 0%Q)
  /\ negb (is_null (currentTrack p)) && negb (isPlaying p) = false
  /\ resume p = play None p.

(** The Loading phase: [play] has settled on an existing file and is waiting
    for the metadata probe. *)
Definition loading_example : Player :=
  Eval vm_compute in
    state_of (run (files ["a.mp3"])
                [CallPlay None;
                 Resume (KConfigured None) (SetupCompleted (mkFormat 2 44100 16))]
                (new_Player ["a.mp3"; "b.mp3"])).

(** The fields once [getNext] has removed the head of the queue. *)
Definition popped (p : Player) : Player :=
  set_audioQueue (snd (AudioQueue.getNext (audioQueue p))) p.

(** What [_handleTrackEnd] does after the teardown: schedule [play] of the
    track it took from the queue, or announce the end of the queue. *)
Definition advance (next : option string) : Action :=
  if truthy next then ASetTimeout (CbPlay next) 100 else AEmit EvQueueEnd.

(** The timers a log sets, with their delays. *)
Definition scheduled (t : list Action) : list (Callback * Z) :=
  omap (fun a => match a with ASetTimeout cb d => Some (cb, d) | _ => None end) t.

(** The turns that follow when the timer set by [_handleTrackEnd] fires and
    everything goes well: [play(next)] is entered, resumes after
    configuration, resumes after the probe with the setup completed, and the
    sink opens. *)
Definition delayed_play (next : string) (metadata : AudioFormat) (now : Z)
  : list Input :=
  [TimerFired (CbPlay (Some next));
   Resume (KConfigured (Some next)) (SetupCompleted metadata);
   Resume KProbed (SetupCompleted metadata);
   SpeakerOpen now].

(** A natural completion whose successor in the queue is a missing file: the
    decoder finishes, the sink closes, the timer fires, and the two
    suspended activations of [play] are resumed in turn. *)
Definition missing_next_inputs : list Input :=
  [CallQueue (AudioQueue.OpAdd "missing.mp3");
   FfmpegEnd;
   SpeakerClose;
   TimerFired (CbPlay (Some "missing.mp3"));
   Resume (KConfigured (Some "missing.mp3")) (SetupCompleted (mkFormat 2 44100 16));
   Resume (KConfigured None) (SetupCompleted (mkFormat 2 44100 16))].


Definition not_found_events (tracks : list string) : list Event :=
  map (fun track => EvError (file_not_found track)) tracks.


(** * The FFmpeg detector

    [src/utils/ffmpeg-detector.ts], the version with custom paths that
    [audio-player.ts] calls.  Its methods are [async] but contain no
    [await]: each one runs to completion in the turn that calls it. *)

Module FFmpegDetector.

Record FFmpegPaths := mkPaths {
  ffmpeg : option string;
  ffprobe : option string;
  isNative : bool
}.

(** The fields of the detector. *)
Record t := mkDetector {
  _cachedPaths : option FFmpegPaths;
  _customFfmpegPath : option string;
  _customFfprobePath : option string
}.

(** The state of a fresh instance. *)
Definition new : t := mkDetector None None None.

(** What the detector asks of the machine: whether [which command] and
    [where command] exit successfully, and whether a path exists. *)
Record System := mkSystem {
  which : string -> bool;
  where_ : string -> bool;
  fileExists : string -> bool
}.

(** The errors thrown, by their first words. *)
Inductive DetectError :=
| FFmpegNotFound        (* 'FFmpeg not found. Please ensure ...' *)
| NativeFFmpegNotFound  (* 'Native FFmpeg not found. Please install ...' *)
| CustomFFmpegNotFound  (* 'Custom FFmpeg binaries not found or not set. ...' *).

Inductive result (A : Type) :=
| Returned (a : A)
| Thrown (e : DetectError).
Arguments Returned {A} a.
Arguments Thrown {A} e.

Definition clearCache (d : t) : t :=
  mkDetector None (_customFfmpegPath d) (_customFfprobePath d).

Definition setCustomPaths (ffmpegPath ffprobePath : option string) (d : t) : t :=
  clearCache (mkDetector (_cachedPaths d) ffmpegPath ffprobePath).

Definition commandExists (sys : System) (command : string) : bool :=
  if which sys command then true
  else if where_ sys command then true
  else false.

(** [!!(path && existsSync(path))]. *)
Definition pathExists (sys : System) (path : option string) : bool :=
  if truthy path then fileExists sys (default EmptyString path) else false.

(** [customBinariesExist()]: the pair [(ffmpeg, ffprobe)]. *)
Definition customBinariesExist (sys : System) (d : t) : bool * bool :=
  (pathExists sys (_customFfmpegPath d), pathExists sys (_customFfprobePath d)).

(** [{ffmpeg: commandExists('ffmpeg'), ffprobe: commandExists('ffprobe')}]. *)
Definition nativeExists (sys : System) : bool * bool :=
  (commandExists sys "ffmpeg", commandExists sys "ffprobe").

Definition nativePaths : FFmpegPaths := mkPaths (Some "ffmpeg") (Some "ffprobe") true.

Definition customPaths (d : t) : FFmpegPaths :=
  mkPaths (_customFfmpegPath d) (_customFfprobePath d) false.

Definition set_cachedPaths (v : option FFmpegPaths) (d : t) : t :=
  mkDetector v (_customFfmpegPath d) (_customFfprobePath d).

Definition detectFFmpegPaths (sys : System) (d : t) : result FFmpegPaths * t :=
  match _cachedPaths d with
  | Some cached => (Returned cached, d)
  | None =>
      let customExists := customBinariesExist sys d in
      let nativeExists := nativeExists sys in
      if fst customExists && snd customExists then
        (Returned (customPaths d), set_cachedPaths (Some (customPaths d)) d)
      else if fst nativeExists && snd nativeExists then
        (Returned nativePaths, set_cachedPaths (Some nativePaths) d)
      else (Thrown FFmpegNotFound, d)
  end.

Definition forceNativeFFmpeg (sys : System) (d : t) : result FFmpegPaths * t :=
  let nativeExists := nativeExists sys in
  if negb (fst nativeExists) || negb (snd nativeExists) then
    (Thrown NativeFFmpegNotFound, d)
  else (Returned nativePaths, set_cachedPaths (Some nativePaths) d).

Definition forceCustomFFmpeg (sys : System) (d : t) : result FFmpegPaths * t :=
  let customExists := customBinariesExist sys d in
  if negb (fst customExists) || negb (snd customExists) then
    (Thrown CustomFFmpegNotFound, d)
  else (Returned (customPaths d), set_cachedPaths (Some (customPaths d)) d).

Record Availability := mkAvailability {
  nativeAvailable : bool;
  customAvailable : bool;
  recommendation : string
}.

Definition getFFmpegAvailability (sys : System) (d : t) : Availability :=
  let nativeExists := nativeExists sys in
  let customExists := customBinariesExist sys d in
  let nativeAvailable := fst nativeExists && snd nativeExists in
  let customAvailable := fst customExists && snd customExists in
  let recommendation :=
    if customAvailable && nativeAvailable then
      "Both custom and native FFmpeg are available. Custom paths will be prioritized."
    else if customAvailable then
      "Only custom FFmpeg is available. This will be used."
    else if nativeAvailable then
      "Only native FFmpeg is available. This is the recommended option if possible."
    else
      "No FFmpeg installation found. Please install FFmpeg on your system or provide custom paths."
  in
  mkAvailability nativeAvailable customAvailable recommendation.

(** The calls a holder of the detector can make, and the states they reach
    from a fresh instance. *)
Inductive Call :=
| CSetCustomPaths (ffmpegPath ffprobePath : option string)
| CDetect
| CForceNative
| CForceCustom
| CClearCache.

Definition call (sys : System) (c : Call) (d : t) : t :=
  match c with
  | CSetCustomPaths a b => setCustomPaths a b d
  | CDetect => snd (detectFFmpegPaths sys d)
  | CForceNative => snd (forceNativeFFmpeg sys d)
  | CForceCustom => snd (forceCustomFFmpeg sys d)
  | CClearCache => clearCache d
  end.

(** The machine may change between calls: each call comes with the system
    it sees. *)
Fixpoint calls (cs : list (System * Call)) (d : t) : t :=
  match cs with
  | [] => d
  | (sys, c) :: rest => calls rest (call sys c d)
  end.

(** Both entries of a set of paths are non-empty strings. *)
Definition complete (p : FFmpegPaths) : bool :=
  truthy (ffmpeg p) && truthy (ffprobe p).

End FFmpegDetector.

(** ** How [Player] drives the detector *)

(** [PlayerOptions]; an absent key is [None]. *)
Record PlayerOptions := mkOptions {
  ffmpegPath : option string;
  ffprobePath : option string;
  forceNativeFFmpeg : option bool
}.

(** [v || null] on a [string | undefined]. *)
Definition or_null (v : option string) : option string :=
  if truthy v then v else None.

(** Truthiness of a [boolean | undefined]. *)
Definition truthy_flag (v : option bool) : bool := default false v.

(** [{ ...a, ...b }]: a key present in [b] wins. *)
Definition spread (a b : PlayerOptions) : PlayerOptions :=
  mkOptions
    (match ffmpegPath b with Some v => Some v | None => ffmpegPath a end)
    (match ffprobePath b with Some v => Some v | None => ffprobePath a end)
    (match forceNativeFFmpeg b with Some v => Some v | None => forceNativeFFmpeg a end).

(** The options a constructor call ends up with:
    [{ forceNativeFFmpeg: false, ...options }]. *)
Definition constructor_options (options : PlayerOptions) : PlayerOptions :=
  spread (mkOptions None None (Some false)) options.

(** What the constructor, and [reconfigureFFmpeg], do to the detector once
    the options are in place. *)
Definition apply_custom_paths (options : PlayerOptions) (d : FFmpegDetector.t)
  : FFmpegDetector.t :=
  if truthy (ffmpegPath options) || truthy (ffprobePath options)
  then FFmpegDetector.setCustomPaths (or_null (ffmpegPath options))
         (or_null (ffprobePath options)) d
  else d.

(** The detector call inside the [try] of [configureFFmpeg]. *)
Definition configure_detect (options : PlayerOptions) (sys : FFmpegDetector.System)
  (d : FFmpegDetector.t)
  : FFmpegDetector.result FFmpegDetector.FFmpegPaths * FFmpegDetector.t :=
  if truthy_flag (forceNativeFFmpeg options)
  then FFmpegDetector.forceNativeFFmpeg sys d
  else FFmpegDetector.detectFFmpegPaths sys d.

(** [new Player(queue, options)] followed by the first [configureFFmpeg()],
    on a detector in state [d]. *)
Definition construct_and_configure (options : PlayerOptions)
  (sys : FFmpegDetector.System) (d : FFmpegDetector.t)
  : FFmpegDetector.result FFmpegDetector.FFmpegPaths * FFmpegDetector.t :=
  configure_detect (constructor_options options) sys
    (apply_custom_paths (constructor_options options) d).


(** A machine with the native binaries on the PATH and nothing else, and one
    with nothing at all. *)
Definition native_system : FFmpegDetector.System :=
  FFmpegDetector.mkSystem
    (fun c => bool_decide (c = "ffmpeg" \/ c = "ffprobe"))
    (fun _ => false) (fun _ => false).

Definition bare_system : FFmpegDetector.System :=
  FFmpegDetector.mkSystem (fun _ => false) (fun _ => false) (fun _ => false).

(** A machine without native binaries where the two given files exist. *)
Definition custom_system (a b : string) : FFmpegDetector.System :=
  FFmpegDetector.mkSystem (fun _ => false) (fun _ => false)
    (fun path => bool_decide (path = a \/ path = b)).

(** What is kept of a detector between calls: the cache is empty or holds
    complete paths. *)
Definition cache_complete (d : FFmpegDetector.t) : Prop :=
  forall p, FFmpegDetector._cachedPaths d = Some p -> FFmpegDetector.complete p = true.

(** ** Definitions for the further properties of [Player] *)

Definition is_stop (e : Event) : bool :=
  match e with EvStop _ => true | _ => false end.

(** The turns by which a [play] entered with [filePath] gets a track going:
    resumption after configuration, resumption after the probe with the
    setup completed, and the sink opening at clock reading [now]. *)
Definition start_up (filePath : option string) (metadata : AudioFormat) (now : Z)
  : list Input :=
  [Resume (KConfigured filePath) (SetupCompleted metadata);
   Resume KProbed (SetupCompleted metadata);
   SpeakerOpen now].

(** The fields while [track] plays: decoder and sink built from [metadata],
    sink opened at [now], progress timer armed. *)
Definition playing (track : string) (metadata : AudioFormat) (now : Z)
  (p : Player) : Player :=
  set_progressInterval (Some (mkTimeout 1000))
    (set_startTime now
       (set_ffmpegCommand
          (Some (mkCommand (Some track) (channels metadata) (sampleRate metadata)))
          (set_speaker (Some (mkSpeaker metadata))
             (loading track (cleaned p))))).

(** The callbacks a teardown provokes: the sink closing, the decoder
    reporting an error, the sink reporting a write after [end()]. *)
Definition is_echo (i : Input) : bool :=
  match i with
  | SpeakerClose => true
  | FfmpegError _ => true
  | SpeakerError err => bool_decide (code err = Some ERR_STREAM_WRITE_AFTER_END)
  | _ => false
  end.


(** How many actions of a log satisfy a test. *)
Definition tally (f : Action -> bool) (t : list Action) : nat :=
  length (filter (fun a => f a = true) t).

Definition is_set_interval (a : Action) : bool :=
  match a with ASetInterval _ => true | _ => false end.
Definition is_clear_interval (a : Action) : bool :=
  match a with AClearInterval _ => true | _ => false end.

(** 1 while a progress timer is held, 0 otherwise. *)
Definition timer_held (p : Player) : nat :=
  match progressInterval p with Some _ => 1 | None => 0 end.

(** [isPaused] is false and [pausedTime] is 0. *)
Definition never_paused (p : Player) : Prop :=
  isPaused p = false /\ pausedTime p = 0%Z.

(** A natural completion of the track that is playing: the decoder reports
    its end, then the sink closes. *)
Definition natural_end : list Input := [FfmpegEnd; SpeakerClose].

(** What follows when each track of a playlist plays to its natural end:
    the timer set by [_handleTrackEnd] fires, that [play] starts the track up,
    and the track completes in turn. *)
Fixpoint continue_with (tracks : list string) (metadata : AudioFormat) (now : Z)
  : list Input :=
  match tracks with
  | [] => []
  | next :: rest =>
      TimerFired (CbPlay (Some next))
        :: start_up (Some next) metadata now
        ++ natural_end ++ continue_with rest metadata now
  end.

(** [play()] on a queue, every track playing to its natural end. *)
Definition playlist_inputs (tracks : list string) (metadata : AudioFormat) (now : Z)
  : list Input :=
  match tracks with
  | [] => [CallPlay None; Resume (KConfigured None) (SetupCompleted metadata)]
  | first :: rest =>
      CallPlay None
        :: start_up None metadata now
        ++ natural_end ++ continue_with rest metadata now
  end.

(** [start] and [end] for each track in order, then [queue-end]. *)
Definition playlist_events (tracks : list string) : list Event :=
  flat_map (fun track => [EvStart (Some track); EvEnd (Some track)]) tracks
  ++ [EvQueueEnd].

(** A track [play] will start: a non-empty path naming an existing file. *)
Definition playable (env : Env) (track : string) : Prop :=
  truthy (Some track) = true /\ existsSync env track = true.

(** The fields once the track that was playing has come to its natural end. *)
Definition ended (p : Player) : Player :=
  popped (cleaned (set__isStoppingIntentionally false p)).

Definition is_new_speaker (a : Action) : bool :=
  match a with ANewSpeaker _ => true | _ => false end.

Definition is_pipe_of (track : string) (a : Action) : bool :=
  match a with
  | APipe c _ => bool_decide (input c = Some track)
  | _ => false
  end.

(** Two calls to [play] made in the same turn, each then resumed after
    configuration and each after its probe. *)
Definition double_play (a b : string) (metadata : AudioFormat) : list Input :=
  [CallPlay (Some a);
   CallPlay (Some b);
   Resume (KConfigured (Some a)) (SetupCompleted metadata);
   Resume (KConfigured (Some b)) (SetupCompleted metadata);
   Resume KProbed (SetupCompleted metadata);
   Resume KProbed (SetupCompleted metadata)].

(** [skip()], its timer, the resumption of the [play()] it triggers, and only
    then the [close] of the sink that [skip()] ended. *)
Definition skip_then_late_close (metadata : AudioFormat) : list Input :=
  [CallSkip;
   TimerFired (CbPlay None);
   Resume (KConfigured None) (SetupCompleted metadata);
   SpeakerClose].

(** * Properties *)

(** ** Teardown *)

Lemma _cleanup_eq (p : Player) : _cleanup p = (tt, cleaned p, teardown_calls p).
Proof.
  destruct p as [q cfg pl pa ct pt [c|] [s|] st [h|] latch]; reflexivity.
Qed.

Lemma teardown_calls_no_latch (p : Player) (b : bool) :
  AWriteLatch b ∉ teardown_calls p.
Proof.
  rewrite list_elem_of_In. unfold teardown_calls.
  destruct (progressInterval p), (ffmpegCommand p), (speaker p); cbn;
    intuition discriminate.
Qed.

Lemma teardown_calls_no_event (p : Player) : events (teardown_calls p) = [].
Proof.
  unfold teardown_calls.
  destruct (progressInterval p), (ffmpegCommand p), (speaker p); reflexivity.
Qed.

(** [stop] on a playing controller, spelled out. *)
Lemma stop_playing_eq (p : Player) :
  isPlaying p = true ->
  stop p = (tt, cleaned (set__isStoppingIntentionally true p),
            AEmit (EvStop (currentTrack p)) :: AWriteLatch true :: teardown_calls p).
Proof.
  intros Hp. unfold stop. unfold_m. rewrite Hp. cbn.
  rewrite _cleanup_eq. reflexivity.
Qed.

(** [stop] on a controller that is not playing, spelled out. *)
Lemma stop_idle_eq (p : Player) : isPlaying p = false -> stop p = (tt, p, []).
Proof.
  intros Hp. unfold stop. unfold_m. rewrite Hp. reflexivity.
Qed.

(** C9: teardown is idempotent.  A second [_cleanup] right after a first one
    changes no field and makes no call, and after the first one the progress
    timer, the decoder and the sink are null, there is no current track,
    [isPlaying] and [isPaused] are false and [startTime] is 0.  The
    computation is a total function, so nothing is raised. *)
Theorem cleanup_idempotent (p : Player) :
  let p1 := state_of (_cleanup p) in
  _cleanup p1 = (tt, p1, [])
  /\ progressInterval p1 = None
  /\ ffmpegCommand p1 = None
  /\ speaker p1 = None
  /\ currentTrack p1 = None
  /\ isPlaying p1 = false
  /\ isPaused p1 = false
  /\ startTime p1 = 0%Z.
Proof.
  cbv zeta. rewrite _cleanup_eq. unfold state_of; cbn [fst snd].
  rewrite _cleanup_eq. repeat split; reflexivity.
Qed.

(** C7: [stop()] on a controller that is not playing does nothing: no event
    (in particular no [stop]), no teardown call, every field as before. *)
Theorem stop_idle_noop (p : Player) :
  isPlaying p = false -> stop p = (tt, p, []).
Proof. exact (stop_idle_eq p). Qed.

Lemma stop_idle_noop_witness :
  stop (new_Player ["a.mp3"]) = (tt, new_Player ["a.mp3"], []).
Proof. apply stop_idle_noop. reflexivity. Defined.

(** C5: [play()] while [isPlaying] is true returns at once: nothing is
    logged (no event, no continuation) and no field changes. *)
Theorem play_while_playing_noop (filePath : option string) (p : Player) :
  isPlaying p = true -> play filePath p = (tt, p, []).
Proof.
  intros Hp. unfold play. unfold_m. rewrite Hp. reflexivity.
Qed.

(** ** The intentional-stop latch *)



(** C3: once [stop()] has run on a playing track, and for as long as the
    latch is still set after whatever came next, a decoder error callback,
    and a sink error callback whose code is [ERR_STREAM_WRITE_AFTER_END], are
    swallowed: nothing is logged (no [error] event, no teardown call) and no
    field changes. *)
Theorem stop_suppresses_teardown_errors
  (env : Env) (p0 : Player) (later : list Input) (err : JsError) :
  isPlaying p0 = true ->
  let p := state_of (run env (CallStop :: later) p0) in
  _isStoppingIntentionally p = true ->
  exec env (FfmpegError err) p = (tt, p, [])
  /\ (code err = Some ERR_STREAM_WRITE_AFTER_END ->
      exec env (SpeakerError err) p = (tt, p, [])).
Proof.
  intros _ p Hlatch. cbn [exec]. split.
  - unfold on_ffmpeg_error. unfold_m. rewrite Hlatch. reflexivity.
  - intros Hcode. unfold on_speaker_error. unfold_m.
    rewrite Hlatch, bool_decide_eq_true_2 by exact Hcode. reflexivity.
Qed.

Lemma stop_suppresses_teardown_errors_witness :
  let p := state_of (run (files ["a.mp3"]) [CallStop] playing_example) in
  exec (files ["a.mp3"]) (FfmpegError sigkill) p = (tt, p, [])
  /\ exec (files ["a.mp3"]) (SpeakerError write_after_end) p = (tt, p, []).
Proof.
  cbv zeta. split.
  - apply (stop_suppresses_teardown_errors (files ["a.mp3"]) playing_example []
             sigkill); reflexivity.
  - apply (stop_suppresses_teardown_errors (files ["a.mp3"]) playing_example []
             write_after_end); reflexivity.
Defined.

Lemma keeps_latch_others (env : Env) (i : Input) (p : Player) :
  i <> FfmpegEnd ->
  (forall filePath o, i <> Resume (KConfigured filePath) o) ->
  keeps_latch (exec env i p) p.
Proof.
  intros Hend Hplay.
  destruct i as [fp| | | | | | |o|k o|cb|now|now| |err|err| ]; cbn [exec].
  - crush_player p; destruct pl; cbn; intuition discriminate.
  - crush_player p; destruct pl; cbn; intuition discriminate.
  - crush_player p; destruct pl, ct; cbn; intuition discriminate.
  - crush_player p; destruct pl; cbn; intuition discriminate.
  - crush_player p; destruct pl; cbn; intuition discriminate.
  - crush_player p; cbn; intuition discriminate.
  - crush_player p; unfold reconfigureFFmpeg, configureFFmpeg; unfold_m;
      cbn; destruct (detectFFmpeg env); cbn; intuition discriminate.
  - crush_player p; cbn; intuition discriminate.
  - destruct k as [fp|]; [exfalso; exact (Hplay fp o eq_refl)|].
    destruct o; crush_player p; cbn; intuition discriminate.
  - destruct cb as [fp]; crush_player p; destruct pl; cbn; intuition discriminate.
  - crush_player p; destruct pl, pa; cbn; intuition discriminate.
  - crush_player p; cbn; intuition discriminate.
  - crush_player p; destruct latch; destruct q as [|[|a x] q]; cbn;
      intuition discriminate.
  - crush_player p; unfold on_speaker_error; unfold_m; cbn;
      destruct latch; cbn; try case_bool_decide; cbn; intuition discriminate.
  - crush_player p; destruct latch; cbn; intuition discriminate.
  - congruence.
Qed.

(** ** [play] after its first [await], case by case *)

Lemma play_configured_rejects (env : Env) (filePath : option string) (p : Player) :
  isFFmpegConfigured p = false -> detectFFmpeg env = false ->
  play_configured env filePath p = (tt, p, [AReject]).
Proof.
  intros Hc Hd. unfold play_configured, configureFFmpeg. unfold_m.
  rewrite Hc, Hd. reflexivity.
Qed.

Lemma play_configured_eq (env : Env) (filePath : option string) (p : Player) :
  isFFmpegConfigured p || detectFFmpeg env = true ->
  play_configured env filePath p =
    let '(v, p1) := resolved filePath (set_isFFmpegConfigured true p) in
    if truthy v then
      let track := default EmptyString v in
      if existsSync env track
      then (tt, loading track (cleaned p1),
            teardown_calls p1
              ++ [AWriteLatch false; AProbe (Some track); AAwait KProbed])
      else (tt, cleaned p1,
            teardown_calls p1
              ++ [AEmit (EvError (file_not_found track)); AAwait (KConfigured None)])
    else (tt, p1, [AEmit EvQueueEnd]).
Proof.
  intros Hok.
  destruct p as [q cfg pl pa ct pt c s st h latch].
  unfold play_configured, configureFFmpeg, resolved, queue_getNext.
  unfold_m. cbn in Hok |- *.
  destruct cfg; cbn in Hok; [|rewrite Hok]; cbn.
  all: destruct filePath as [[|a x]|]; cbn.
  all: try (destruct q as [|[|a' x'] q]; cbn).
  all: try reflexivity.
  all: match goal with |- context [existsSync ?e ?t] =>
         destruct (existsSync e t) end; cbn.
  all: destruct c, s, h; reflexivity.
Qed.

Lemma resolved_latch (filePath : option string) (p : Player) :
  _isStoppingIntentionally (snd (resolved filePath p)) = _isStoppingIntentionally p.
Proof.
  unfold resolved, queue_getNext. unfold_m.
  destruct (truthy filePath); [reflexivity|].
  destruct (audioQueue p); reflexivity.
Qed.

(** C2, as the code has it: the latch is cleared in two places, in [play]
    once it has settled on an existing file, and in the decoder's [end]
    callback; no other method or callback writes [false] to it or leaves it
    cleared after finding it set.  Both of those do clear it. *)
Theorem latch_cleared_only_by_play_or_decoder_end
  (env : Env) (i : Input) (p : Player) :
  (AWriteLatch false ∈ trace_of (exec env i p)
   \/ (_isStoppingIntentionally p = true
       /\ _isStoppingIntentionally (state_of (exec env i p)) = false)) ->
  (i = FfmpegEnd \/ play_resolves env i p)
  /\ _isStoppingIntentionally (state_of (exec env i p)) = false.
Proof.
  intros Hclear.
  assert (Hothers :
    i <> FfmpegEnd -> (forall fp o, i <> Resume (KConfigured fp) o) -> False).
  { intros H1 H2. destruct (keeps_latch_others env i p H1 H2) as [Hw Hs].
    destruct Hclear as [Hin|[Ht Hf]]; [exact (Hw Hin)|].
    rewrite (Hs Ht) in Hf. discriminate. }
  destruct i as [fp| | | | | | |qo|[fp|] o|cb|now|now| |err|err| ];
    try (exfalso; apply Hothers; [discriminate | intros; discriminate]).
  - (* the continuation of [play] *)
    clear Hothers. unfold play_resolves. cbn [exec resume_cont] in *.
    destruct (isFFmpegConfigured p || detectFFmpeg env) eqn:Hok.
    + rewrite (play_configured_eq env fp p Hok) in *.
      pose proof (resolved_latch fp (set_isFFmpegConfigured true p)) as Hl.
      destruct (resolved fp (set_isFFmpegConfigured true p)) as [v p1].
      cbn [snd] in Hl.
      destruct (truthy v).
      * cbv zeta in *. destruct (existsSync env (default EmptyString v)) eqn:Hex.
        -- split; [|reflexivity]. right.
           exists fp, o, (default EmptyString v). auto.
        -- exfalso. unfold trace_of, state_of in Hclear; cbn [fst snd] in Hclear.
           destruct Hclear as [Hin|[Ht Hf]].
           ++ apply elem_of_app in Hin as [Hin|Hin].
              ** exact (teardown_calls_no_latch p1 false Hin).
              ** rewrite list_elem_of_In in Hin. cbn in Hin. intuition discriminate.
           ++ cbn in Hf. rewrite Hl in Hf. cbn in Hf. congruence.
      * exfalso. unfold trace_of, state_of in Hclear; cbn [fst snd] in Hclear.
        destruct Hclear as [Hin|[Ht Hf]].
        -- rewrite list_elem_of_In in Hin. cbn in Hin. intuition discriminate.
        -- rewrite Hl in Hf. cbn in Hf. congruence.
    + apply orb_false_elim in Hok as [Hc Hd].
      rewrite (play_configured_rejects env fp p Hc Hd) in *.
      exfalso. unfold trace_of, state_of in Hclear; cbn [fst snd] in Hclear.
      destruct Hclear as [Hin|[Ht Hf]].
      * rewrite list_elem_of_In in Hin. cbn in Hin. intuition discriminate.
      * congruence.
  - (* the decoder's [end] callback *)
    split; [left; reflexivity | reflexivity].
Qed.

Lemma latch_cleared_only_by_play_or_decoder_end_witness :
  _isStoppingIntentionally
    (state_of (exec (files ["a.mp3"]) FfmpegEnd stopped_example)) = false.
Proof.
  apply (latch_cleared_only_by_play_or_decoder_end
           (files ["a.mp3"]) FfmpegEnd stopped_example).
  right. split; reflexivity.
Defined.

(** C2 as worded fails: [play] is not the only place.  After a [stop()] has
    set the latch, the decoder's [end] callback, which runs no part of
    [play], clears it. *)
Lemma decoder_end_clears_latch :
  ~ (forall (env : Env) (i : Input) (p : Player),
       _isStoppingIntentionally p = true ->
       _isStoppingIntentionally (state_of (exec env i p)) = false ->
       runs_play i = true).
Proof.
  intros Hclaim.
  specialize (Hclaim (files ["a.mp3"]) FfmpegEnd stopped_example eq_refl eq_refl).
  discriminate Hclaim.
Qed.

(** ** Reachable states *)

Lemma reachable_run (env : Env) (inputs : list Input) (p : Player) :
  reachable env p -> reachable env (state_of (run env inputs p)).
Proof.
  revert p. induction inputs as [|i rest IH]; intros p Hp.
  - exact Hp.
  - cbn [run]. unfold bind, state_of.
    destruct (exec env i p) as [[u p1] t1] eqn:He.
    specialize (IH p1).
    destruct (run env rest p1) as [[u2 p2] t2] eqn:Hr. cbn [fst snd] in *.
    apply IH. replace p1 with (state_of (exec env i p)) by (rewrite He; reflexivity).
    apply reach_step. exact Hp.
Qed.

Lemma exec_track_iff_playing (env : Env) (i : Input) (p : Player) :
  track_iff_playing p -> track_iff_playing (state_of (exec env i p)).
Proof.
  unfold track_iff_playing. intros Hinv.
  destruct i as [fp| | | | | | |qo|[fp|] o|cb|now|now| |err|err| ]; cbn [exec resume_cont].
  - destruct p as [q cfg [|] pa ct pt c s st h latch]; exact Hinv.
  - destruct p as [q cfg [|] pa ct pt [c|] [s|] st [h|] latch]; first [exact Hinv | reflexivity].
  - destruct p as [q cfg [|] pa [ct|] pt c s st h latch]; exact Hinv.
  - destruct p as [q cfg [|] pa ct pt [c|] [s|] st [h|] latch]; first [exact Hinv | reflexivity].
  - destruct p as [q cfg [|] pa ct pt [c|] [s|] st [h|] latch]; first [exact Hinv | reflexivity].
  - destruct p as [q cfg pl pa ct pt [c|] [s|] st [h|] latch]; reflexivity.
  - destruct p as [q [|] pl pa ct pt c s st h latch];
      unfold reconfigureFFmpeg, configureFFmpeg; unfold_m; cbn;
      destruct (detectFFmpeg env); exact Hinv.
  - exact Hinv.
  - destruct (isFFmpegConfigured p || detectFFmpeg env) eqn:Hok.
    + rewrite (play_configured_eq env fp p Hok).
      destruct (resolved fp (set_isFFmpegConfigured true p)) as [v p1] eqn:Hres.
      destruct (truthy v); [cbv zeta; destruct (existsSync env _); reflexivity|].
      unfold state_of; cbn [fst snd].
      replace p1 with (snd (resolved fp (set_isFFmpegConfigured true p)))
        by (rewrite Hres; reflexivity).
      unfold resolved, queue_getNext. unfold_m.
      destruct (truthy fp); [exact Hinv|].
      destruct (audioQueue _); exact Hinv.
    + apply orb_false_elim in Hok as [Hc Hd].
      rewrite (play_configured_rejects env fp p Hc Hd). exact Hinv.
  - destruct o; destruct p as [q cfg pl pa ct pt [c|] [s|] st [h|] latch];
      first [exact Hinv | reflexivity].
  - destruct cb as [fp]. destruct p as [q cfg [|] pa ct pt c s st h latch]; exact Hinv.
  - destruct p as [q cfg [|] [|] ct pt c s st h latch]; exact Hinv.
  - destruct p as [q cfg pl pa ct pt c s st [h|] latch]; exact Hinv.
  - destruct p as [q cfg pl pa ct pt [c|] [s|] st [h|] [|]]; try exact Hinv;
      destruct q as [|[|a x] q]; reflexivity.
  - destruct p as [q cfg pl pa ct pt [c|] [s|] st [h|] [|]];
      unfold on_speaker_error; unfold_m; cbn;
      try case_bool_decide; first [exact Hinv | reflexivity].
  - destruct p as [q cfg pl pa ct pt [c|] [s|] st [h|] [|]];
      first [exact Hinv | reflexivity].
  - exact Hinv.
Qed.

Lemma reachable_track_iff_playing (env : Env) (p : Player) :
  reachable env p -> track_iff_playing p.
Proof.
  induction 1 as [q|p i Hp IH].
  - reflexivity.
  - apply exec_track_iff_playing. exact IH.
Qed.

Lemma cleaned_no_track_left (p : Player) : no_track_left (cleaned p).
Proof. repeat split. Qed.

(** C10: from any state the controller can reach, once [stop()], [pause()],
    the teardown routine or [destroy()] has run there is no current track:
    [hasTrack()] is false, [getCurrentProgress()] is 0 and [resume()] takes
    its first branch.  In fact no reachable state satisfies the guard of the
    branch that replays a still-referenced track. *)
Theorem no_track_after_stop_pause_cleanup (env : Env) (p : Player) :
  reachable env p ->
  no_track_left (state_of (stop p))
  /\ no_track_left (state_of (pause p))
  /\ no_track_left (state_of (_cleanup p))
  /\ no_track_left (state_of (destroy p))
  /\ negb (is_null (currentTrack p)) && negb (isPlaying p) = false.
Proof.
  intros Hreach.
  pose proof (reachable_track_iff_playing env p Hreach) as Hinv.
  unfold track_iff_playing, hasTrack in Hinv.
  assert (Hstop : no_track_left (state_of (stop p))).
  { destruct (isPlaying p) eqn:Hp.
    - rewrite (stop_playing_eq p Hp). apply cleaned_no_track_left.
    - rewrite (stop_idle_eq p Hp). unfold state_of; cbn [fst snd].
      destruct p as [q cfg pl pa [ct|] pt c s st h latch]; cbn in Hp, Hinv;
        subst pl; [discriminate|]. repeat split. }
  split; [exact Hstop|]. split; [exact Hstop|].
  split; [rewrite _cleanup_eq; apply cleaned_no_track_left|].
  split.
  - unfold destroy, bind. rewrite _cleanup_eq. apply cleaned_no_track_left.
  - rewrite Hinv. destruct (is_null (currentTrack p)); reflexivity.
Qed.

Lemma started_example_reachable : reachable (files ["a.mp3"]) started_example.
Proof.
  change started_example
    with (state_of (run (files ["a.mp3"]) started_inputs (new_Player ["a.mp3"]))).
  apply reachable_run, reach_new.
Qed.

Lemma no_track_after_stop_pause_cleanup_witness :
  isPlaying started_example = true
  /\ no_track_left (state_of (stop started_example)).
Proof.
  split; [reflexivity|].
  exact (proj1 (no_track_after_stop_pause_cleanup
                  (files ["a.mp3"]) started_example started_example_reachable)).
Defined.

Lemma play_while_playing_noop_witness :
  ffmpegCommand loading_example = None
  /\ play (Some "b.mp3") loading_example = (tt, loading_example, []).
Proof.
  split; [reflexivity|].
  apply (play_while_playing_noop (Some "b.mp3") loading_example). reflexivity.
Defined.

(** ** Natural completion *)

Lemma _handleTrackEnd_natural_eq (p : Player) :
  _isStoppingIntentionally p = false ->
  _handleTrackEnd p =
    (tt, popped (cleaned p),
     AEmit (EvEnd (currentTrack p))
       :: teardown_calls p ++ [advance (AudioQueue.peek (audioQueue p))]).
Proof.
  intros Hl. unfold _handleTrackEnd, queue_getNext. unfold_m. rewrite Hl.
  rewrite _cleanup_eq. cbn.
  destruct p as [q cfg pl pa ct pt c s st h latch]; cbn.
  destruct q as [|[|a x] q]; cbn; rewrite ?app_nil_r; reflexivity.
Qed.

Lemma count_app (f : Event -> bool) (t1 t2 : list Action) :
  count f (t1 ++ t2) = count f t1 + count f t2.
Proof.
  unfold count, events. rewrite omap_app, filter_app, length_app. reflexivity.
Qed.

Lemma count_teardown_calls (f : Event -> bool) (p : Player) :
  count f (teardown_calls p) = 0.
Proof. unfold count. rewrite teardown_calls_no_event. reflexivity. Qed.

Lemma scheduled_teardown_calls (p : Player) : scheduled (teardown_calls p) = [].
Proof.
  unfold teardown_calls.
  destruct (progressInterval p), (ffmpegCommand p), (speaker p); reflexivity.
Qed.


Lemma delayed_play_starts (env : Env) (next : string) (metadata : AudioFormat)
  (now : Z) (p : Player) :
  truthy (Some next) = true ->
  existsSync env next = true ->
  isFFmpegConfigured p || detectFFmpeg env = true ->
  isPlaying p = false ->
  events (trace_of (run env (delayed_play next metadata now) p))
  = [EvStart (Some next)].
Proof.
  intros Ht Hex Hok Hp.
  destruct next as [|a x]; [discriminate|].
  destruct p as [q cfg pl pa ct pt c s st h latch].
  cbn in Hp, Hok. subst pl.
  unfold delayed_play, run, exec, run_callback, resume_cont, play,
    play_configured, configureFFmpeg, play_probed, new_speaker,
    new_ffmpegCommand, pipe, on_speaker_open, _startProgressTracker,
    _stopProgressTracker, _cleanup.
  unfold_m. cbn.
  destruct cfg; cbn in Hok; [|rewrite Hok]; cbn; rewrite Hex; cbn;
    destruct c, s, h; reflexivity.
Qed.

(** C4, as the code has it: when the sink closes with the latch clear, the
    callback emits exactly one [end] event, for the track that was current,
    tears the resources down, takes the head of the queue, and then does
    exactly one of two things: it sets a 100 ms timer for [play] of that
    track when it is a non-empty path, or else emits one [queue-end].  An
    empty queue gives [queue-end].  When the timer fires on the controller
    left idle, the file exists and configuration, probe and setup succeed,
    that [play] produces exactly one event, [start] for that track. *)
Theorem natural_end_advances (p : Player) :
  _isStoppingIntentionally p = false ->
  let t := trace_of (on_speaker_close p) in
  let p' := state_of (on_speaker_close p) in
  let next := AudioQueue.peek (audioQueue p) in
  count is_end t = 1
  /\ head (events t) = Some (EvEnd (currentTrack p))
  /\ (forall c, ffmpegCommand p = Some c -> AKill c ∈ t)
  /\ (forall s, speaker p = Some s -> AEnd s ∈ t)
  /\ (ffmpegCommand p' = None /\ speaker p' = None /\ progressInterval p' = None
      /\ currentTrack p' = None /\ isPlaying p' = false)
  /\ audioQueue p' = tail (audioQueue p)
  /\ last t = Some (advance next)
  /\ (if truthy next
      then scheduled t = [(CbPlay next, 100%Z)] /\ count is_queue_end t = 0
      else scheduled t = [] /\ count is_queue_end t = 1)
  /\ (audioQueue p = [] -> count is_queue_end t = 1)
  /\ (forall env track metadata now,
        next = Some track -> truthy next = true ->
        existsSync env track = true ->
        isFFmpegConfigured p || detectFFmpeg env = true ->
        events (trace_of (run env (delayed_play track metadata now) p'))
        = [EvStart (Some track)]).
Proof.
  intros Hl. cbv zeta. unfold on_speaker_close.
  rewrite (_handleTrackEnd_natural_eq p Hl).
  unfold trace_of, state_of; cbn [fst snd].
  assert (Hq : count is_queue_end (teardown_calls p) = 0)
    by apply count_teardown_calls.
  assert (He : count is_end (teardown_calls p) = 0)
    by apply count_teardown_calls.
  pose proof (teardown_calls_no_event p) as Hev.
  pose proof (scheduled_teardown_calls p) as Hs.
  repeat match goal with |- _ /\ _ => split end.
  - change (count is_end ([AEmit (EvEnd (currentTrack p))]
                          ++ teardown_calls p ++ [advance (AudioQueue.peek (audioQueue p))]) = 1).
    rewrite !count_app, He. unfold advance.
    destruct (truthy _); reflexivity.
  - reflexivity.
  - intros c Hc. rewrite list_elem_of_In. unfold teardown_calls. rewrite Hc.
    destruct (progressInterval p), (speaker p); cbn; tauto.
  - intros s Hs'. rewrite list_elem_of_In. unfold teardown_calls. rewrite Hs'.
    destruct (progressInterval p), (ffmpegCommand p); cbn; tauto.
  - reflexivity.
  - reflexivity.
  - reflexivity.
  - reflexivity.
  - reflexivity.
  - destruct p as [[|x q] cfg pl pa ct pt c s st h latch]; reflexivity.
  - rewrite app_comm_cons. apply last_snoc.
  - change (AEmit (EvEnd (currentTrack p))
              :: teardown_calls p ++ [advance (AudioQueue.peek (audioQueue p))])
      with ([AEmit (EvEnd (currentTrack p))]
              ++ teardown_calls p ++ [advance (AudioQueue.peek (audioQueue p))]).
    rewrite !count_app, Hq. unfold scheduled. rewrite !omap_app.
    fold (scheduled (teardown_calls p)). rewrite Hs. unfold advance.
    destruct (truthy _); split; reflexivity.
  - intros Hempty.
    change (AEmit (EvEnd (currentTrack p))
              :: teardown_calls p ++ [advance (AudioQueue.peek (audioQueue p))])
      with ([AEmit (EvEnd (currentTrack p))]
              ++ teardown_calls p ++ [advance (AudioQueue.peek (audioQueue p))]).
    rewrite !count_app, Hq, Hempty. reflexivity.
  - intros env track metadata now Hnext Htruthy Hex Hok.
    rewrite Hnext in Htruthy.
    apply delayed_play_starts; try assumption. reflexivity.
Qed.

Lemma natural_end_advances_witness :
  count is_end (trace_of (on_speaker_close playing_example)) = 1
  /\ scheduled (trace_of (on_speaker_close playing_example))
     = [(CbPlay (Some "b.mp3"), 100%Z)].
Proof.
  pose proof (natural_end_advances playing_example eq_refl)
    as (Hend & _ & _ & _ & _ & _ & _ & Hnext & _).
  split; [exact Hend | exact (proj1 Hnext)].
Defined.

(** C4 as worded fails: with the latch clear and a next track that does not
    exist, the sink-close callback is followed by a delayed [play()] of the
    next queued track and by a [queue-end] as well, and by no [start]. *)
Lemma natural_end_missing_next :
  let r := run (files ["a.mp3"]) missing_next_inputs started_example in
  let t := trace_of r in
  _isStoppingIntentionally started_example = false
  /\ events t = [EvEnd (Some "a.mp3");
                 EvError (file_not_found "missing.mp3");
                 EvQueueEnd]
  /\ scheduled t = [(CbPlay (Some "missing.mp3"), 100%Z)]
  /\ count is_start t = 0
  /\ ~ ((scheduled t <> [] /\ count is_start t = 1 /\ count is_queue_end t = 0)
        \/ (scheduled t = [] /\ count is_queue_end t = 1)).
Proof.
  cbv zeta.
  assert (Ht : trace_of (run (files ["a.mp3"]) missing_next_inputs started_example)
               = [AWriteLatch false;
                  AEmit (EvEnd (Some "a.mp3"));
                  AClearInterval (mkTimeout 1000);
                  AKill (mkCommand (Some "a.mp3") 2 44100);
                  AEnd (mkSpeaker (mkFormat 2 44100 16));
                  ASetTimeout (CbPlay (Some "missing.mp3")) 100;
                  AAwait (KConfigured (Some "missing.mp3"));
                  AEmit (EvError (file_not_found "missing.mp3"));
                  AAwait (KConfigured None);
                  AEmit EvQueueEnd])
    by (vm_compute; reflexivity).
  rewrite Ht.
  split; [reflexivity|]. split; [reflexivity|]. split; [reflexivity|].
  split; [reflexivity|].
  intros [(_ & Hs & _)|(Hs & _)]; discriminate Hs.
Qed.

(** ** Missing files *)

Lemma play_idle_eq (filePath : option string) (p : Player) :
  isPlaying p = false ->
  play filePath p = (tt, p, [AAwait (KConfigured filePath)]).
Proof. intros Hp. unfold play. unfold_m. rewrite Hp. reflexivity. Qed.


Lemma play_configured_queue_end (env : Env) (filePath : option string) (p : Player) :
  isFFmpegConfigured p || detectFFmpeg env = true ->
  truthy (fst (resolved filePath (set_isFFmpegConfigured true p))) = false ->
  play_configured env filePath p =
    (tt, snd (resolved filePath (set_isFFmpegConfigured true p)), [AEmit EvQueueEnd]).
Proof.
  intros Hok Hres. rewrite (play_configured_eq env filePath p Hok).
  destruct (resolved filePath (set_isFFmpegConfigured true p)) as [v p1].
  cbn [fst snd] in *. rewrite Hres. reflexivity.
Qed.

Lemma events_app (t1 t2 : list Action) : events (t1 ++ t2) = events t1 ++ events t2.
Proof. apply omap_app. Qed.




Lemma not_found_events_app (l1 l2 : list string) :
  not_found_events (l1 ++ l2) = not_found_events l1 ++ not_found_events l2.
Proof. apply map_app. Qed.






(** ** The track queue *)

Lemma queue_fifo_inv (ops : list AudioQueue.Op) :
  forall (q a t : list string),
    t ++ q = a ->
    AudioQueue.taken ops q t ++ snd (AudioQueue.run ops q) = AudioQueue.added ops a.
Proof.
  induction ops as [|o ops IH]; intros q a t Hinv.
  - exact Hinv.
  - cbn [AudioQueue.run AudioQueue.taken AudioQueue.added].
    destruct o as [ref| | | |]; cbn [AudioQueue.apply fst snd].
    + specialize (IH (AudioQueue.add ref q) (a ++ [ref]) t).
      destruct (AudioQueue.run ops (AudioQueue.add ref q)) as [rs q2].
      cbn [snd] in *. apply IH. unfold AudioQueue.add.
      rewrite app_assoc, Hinv. reflexivity.
    + destruct q as [|x q]; cbn [AudioQueue.getNext fst snd].
      * specialize (IH [] a t).
        destruct (AudioQueue.run ops []) as [rs q2]. cbn [snd] in *.
        apply IH. exact Hinv.
      * specialize (IH q a (t ++ [x])).
        destruct (AudioQueue.run ops q) as [rs q2]. cbn [snd] in *.
        apply IH. rewrite <- app_assoc. exact Hinv.
    + specialize (IH q a t).
      destruct (AudioQueue.run ops q) as [rs q2]. cbn [snd] in *.
      apply IH. exact Hinv.
    + specialize (IH q a t).
      destruct (AudioQueue.run ops q) as [rs q2]. cbn [snd] in *.
      apply IH. exact Hinv.
    + specialize (IH (AudioQueue.clear q) [] []).
      destruct (AudioQueue.run ops (AudioQueue.clear q)) as [rs q2].
      cbn [snd] in *. apply IH. reflexivity.
Qed.

Lemma alloc_fresh (h : AudioQueue.Store) : h !! AudioQueue.alloc h = None.
Proof.
  unfold AudioQueue.alloc. apply not_elem_of_dom. apply is_fresh.
Qed.

(** The operations on the queue object act on its private array as the
    operations on sequences do. *)
Lemma h_ops_refine (h : AudioQueue.Store) (o : AudioQueue.Obj) (ref : string) :
  AudioQueue.contents (AudioQueue.h_add ref o h) o
    = AudioQueue.add ref (AudioQueue.contents h o)
  /\ AudioQueue.contents (snd (AudioQueue.h_getNext o h)) o
     = snd (AudioQueue.getNext (AudioQueue.contents h o))
  /\ fst (AudioQueue.h_getNext o h) = fst (AudioQueue.getNext (AudioQueue.contents h o))
  /\ AudioQueue.h_peek o h = AudioQueue.peek (AudioQueue.contents h o)
  /\ AudioQueue.contents (AudioQueue.h_clear o h) o
     = AudioQueue.clear (AudioQueue.contents h o).
Proof.
  unfold AudioQueue.h_add, AudioQueue.h_getNext, AudioQueue.h_peek,
    AudioQueue.h_clear.
  destruct (AudioQueue.getNext (AudioQueue.contents h o)) as [v q'] eqn:Hg.
  unfold AudioQueue.contents in *. cbn [fst snd].
  rewrite !lookup_insert_eq. cbn. repeat split; reflexivity.
Qed.

(** C8: for every sequence of queue operations, from any starting contents:
    what [getNext] has handed out since the last [clear], followed by what
    remains, is exactly what was there or has been added since, in insertion
    order (FIFO); [peek] returns the head and leaves the queue as it is;
    [getNext] on the empty queue returns the absent value, and on a non-empty
    one removes and returns the head; the length of [list()] is the number
    of entries added and not yet taken; and [list()] yields a fresh array
    holding the current order, which can be mutated at will without the
    queue's contents changing. *)
Theorem queue_fifo_and_snapshot :
  (forall (ops : list AudioQueue.Op) (q : AudioQueue.t),
     AudioQueue.taken ops q [] ++ snd (AudioQueue.run ops q)
     = AudioQueue.added ops q)
  /\ (forall q : AudioQueue.t,
        AudioQueue.apply AudioQueue.OpPeek q
        = (AudioQueue.RTrack (head q), q))
  /\ AudioQueue.getNext [] = (None, [])
  /\ (forall (x : string) (q : AudioQueue.t),
        AudioQueue.getNext (x :: q) = (Some x, q))
  /\ (forall (ops : list AudioQueue.Op) (q : AudioQueue.t),
        length (AudioQueue.list (snd (AudioQueue.run ops q)))
        + length (AudioQueue.taken ops q [])
        = length (AudioQueue.added ops q))
  /\ (forall (h : AudioQueue.Store) (o : AudioQueue.Obj) (a : list string)
             (f : list string -> list string),
        h !! AudioQueue.queue o = Some a ->
        let r := fst (AudioQueue.h_list o h) in
        let h1 := snd (AudioQueue.h_list o h) in
        r <> AudioQueue.queue o
        /\ h1 !! r = Some a
        /\ AudioQueue.contents h1 o = a
        /\ AudioQueue.mutate r f h1 !! r = Some (f a)
        /\ AudioQueue.contents (AudioQueue.mutate r f h1) o = a).
Proof.
  split; [|split; [|split; [|split; [|split]]]].
  - intros ops q. apply queue_fifo_inv. reflexivity.
  - reflexivity.
  - reflexivity.
  - reflexivity.
  - intros ops q. unfold AudioQueue.list.
    rewrite <- (queue_fifo_inv ops q q [] eq_refl), length_app. lia.
  - intros h o a f Hq. cbv zeta. unfold AudioQueue.h_list; cbn [fst snd].
    pose proof (alloc_fresh h) as Hfresh.
    assert (Hne : AudioQueue.alloc h <> AudioQueue.queue o).
    { intros Heq. rewrite Heq, Hq in Hfresh. discriminate. }
    assert (Hc : AudioQueue.contents h o = a).
    { unfold AudioQueue.contents. rewrite Hq. reflexivity. }
    unfold AudioQueue.list. rewrite Hc.
    split; [exact Hne|]. split; [apply lookup_insert_eq|].
    split.
    + unfold AudioQueue.contents. rewrite lookup_insert_ne by exact Hne.
      rewrite Hq. reflexivity.
    + unfold AudioQueue.mutate. rewrite lookup_insert_eq.
      split; [apply lookup_insert_eq|].
      unfold AudioQueue.contents. rewrite !lookup_insert_ne by exact Hne.
      rewrite Hq. reflexivity.
Qed.

Lemma queue_fifo_and_snapshot_witness :
  let h : AudioQueue.Store := {[ 0 := ["a.mp3"; "b.mp3"] ]} in
  let o := AudioQueue.mkObj 0 in
  let r := fst (AudioQueue.h_list o h) in
  AudioQueue.contents
    (AudioQueue.mutate r (fun _ => []) (snd (AudioQueue.h_list o h))) o
  = ["a.mp3"; "b.mp3"].
Proof.
  cbv zeta.
  pose proof (proj2 (proj2 (proj2 (proj2 (proj2 queue_fifo_and_snapshot))))) as H.
  specialize (H {[ 0 := ["a.mp3"; "b.mp3"] ]} (AudioQueue.mkObj 0)
                ["a.mp3"; "b.mp3"] (fun _ => [])).
  apply H. reflexivity.
Defined.

Example queue_fifo_example :
  AudioQueue.run
    [AudioQueue.OpAdd "a"; AudioQueue.OpAdd "b"; AudioQueue.OpPeek;
     AudioQueue.OpGetNext; AudioQueue.OpList; AudioQueue.OpGetNext;
     AudioQueue.OpGetNext]
    AudioQueue.empty
  = ([AudioQueue.RUnit; AudioQueue.RUnit; AudioQueue.RTrack (Some "a");
      AudioQueue.RTrack (Some "a"); AudioQueue.RList ["b"];
      AudioQueue.RTrack (Some "b"); AudioQueue.RTrack None], []).
Proof. reflexivity. Qed.

(** * Further properties *)

(** ** The FFmpeg detector *)

Lemma detect_cached (sys : FFmpegDetector.System) (d : FFmpegDetector.t)
  (p : FFmpegDetector.FFmpegPaths) :
  FFmpegDetector._cachedPaths d = Some p ->
  FFmpegDetector.detectFFmpegPaths sys d = (FFmpegDetector.Returned p, d).
Proof. intros Hc. unfold FFmpegDetector.detectFFmpegPaths. rewrite Hc. reflexivity. Qed.

Lemma detect_returned_cached (sys : FFmpegDetector.System) (d d' : FFmpegDetector.t)
  (p : FFmpegDetector.FFmpegPaths) :
  FFmpegDetector.detectFFmpegPaths sys d = (FFmpegDetector.Returned p, d') ->
  FFmpegDetector._cachedPaths d' = Some p.
Proof.
  unfold FFmpegDetector.detectFFmpegPaths.
  destruct (FFmpegDetector._cachedPaths d) as [c|] eqn:Hc.
  - intros [= <- <-]. exact Hc.
  - cbv zeta.
    destruct (fst (FFmpegDetector.customBinariesExist sys d)
              && snd (FFmpegDetector.customBinariesExist sys d));
      [intros [= <- <-]; reflexivity|].
    destruct (fst (FFmpegDetector.nativeExists sys)
              && snd (FFmpegDetector.nativeExists sys));
      [intros [= <- <-]; reflexivity | discriminate].
Qed.

(** X1: a successful detection is remembered.  Once [detectFFmpegPaths] has
    returned paths, every later call returns the same paths and changes
    nothing, whatever the machine looks like by then. *)
Theorem detect_result_is_sticky
  (sys sys' : FFmpegDetector.System) (d d' : FFmpegDetector.t)
  (p : FFmpegDetector.FFmpegPaths) :
  FFmpegDetector.detectFFmpegPaths sys d = (FFmpegDetector.Returned p, d') ->
  FFmpegDetector.detectFFmpegPaths sys' d' = (FFmpegDetector.Returned p, d').
Proof.
  intros Hd. apply detect_cached. exact (detect_returned_cached sys d d' p Hd).
Qed.

Lemma detect_result_is_sticky_witness :
  FFmpegDetector.detectFFmpegPaths bare_system
    (snd (FFmpegDetector.detectFFmpegPaths native_system FFmpegDetector.new))
  = (FFmpegDetector.Returned FFmpegDetector.nativePaths,
     snd (FFmpegDetector.detectFFmpegPaths native_system FFmpegDetector.new)).
Proof.
  apply (detect_result_is_sticky native_system bare_system FFmpegDetector.new).
  reflexivity.
Defined.

(** X2: [detectFFmpegPaths] throws exactly when nothing is cached and
    neither both custom binaries nor both native binaries are there; the
    error is then the "FFmpeg not found" one and the detector is left as it
    was, so a later call sees the machine afresh. *)
Theorem detect_throws_iff_nothing_usable
  (sys : FFmpegDetector.System) (d : FFmpegDetector.t) :
  let custom := FFmpegDetector.customBinariesExist sys d in
  let native := FFmpegDetector.nativeExists sys in
  ((exists e, fst (FFmpegDetector.detectFFmpegPaths sys d) = FFmpegDetector.Thrown e)
   <-> (FFmpegDetector._cachedPaths d = None
        /\ fst custom && snd custom = false
        /\ fst native && snd native = false))
  /\ (forall e,
        fst (FFmpegDetector.detectFFmpegPaths sys d) = FFmpegDetector.Thrown e ->
        e = FFmpegDetector.FFmpegNotFound
        /\ snd (FFmpegDetector.detectFFmpegPaths sys d) = d).
Proof.
  cbv zeta. unfold FFmpegDetector.detectFFmpegPaths.
  destruct (FFmpegDetector._cachedPaths d) as [c|]; cbv zeta.
  - cbn [fst snd]. split.
    + split; [intros [e He]; discriminate | intros (Hn & _); discriminate].
    + intros e He. discriminate.
  - destruct (fst (FFmpegDetector.customBinariesExist sys d)
              && snd (FFmpegDetector.customBinariesExist sys d)); cbn [fst snd].
    + split.
      * split; [intros [e He]; discriminate | intros (_ & Hc & _); discriminate].
      * intros e He. discriminate.
    + destruct (fst (FFmpegDetector.nativeExists sys)
                && snd (FFmpegDetector.nativeExists sys)); cbn [fst snd].
      * split.
        -- split; [intros [e He]; discriminate | intros (_ & _ & Hn); discriminate].
        -- intros e He. discriminate.
      * split.
        -- split; [intros _; repeat split | intros _; eexists; reflexivity].
        -- intros e [= <-]. split; reflexivity.
Qed.

Lemma truthy_pathExists (sys : FFmpegDetector.System) (path : option string) :
  FFmpegDetector.pathExists sys path = true -> truthy path = true.
Proof.
  unfold FFmpegDetector.pathExists. destruct (truthy path); [reflexivity | discriminate].
Qed.

Lemma call_cache_complete (sys : FFmpegDetector.System) (c : FFmpegDetector.Call)
  (d : FFmpegDetector.t) :
  cache_complete d -> cache_complete (FFmpegDetector.call sys c d).
Proof.
  unfold cache_complete. intros Hinv p.
  assert (Hcustom :
    fst (FFmpegDetector.customBinariesExist sys d)
    && snd (FFmpegDetector.customBinariesExist sys d) = true ->
    FFmpegDetector.complete (FFmpegDetector.customPaths d) = true).
  { unfold FFmpegDetector.customBinariesExist, FFmpegDetector.complete. cbn [fst snd].
    intros [H1 H2]%andb_true_iff. cbn.
    rewrite (truthy_pathExists sys _ H1), (truthy_pathExists sys _ H2). reflexivity. }
  destruct c as [a b| | | |]; cbn [FFmpegDetector.call].
  - cbn. discriminate.
  - unfold FFmpegDetector.detectFFmpegPaths.
    destruct (FFmpegDetector._cachedPaths d) as [cached|] eqn:Hc; cbv zeta.
    + cbn [snd]. rewrite Hc. intros [= <-]. apply Hinv. reflexivity.
    + destruct (fst (FFmpegDetector.customBinariesExist sys d)
                && snd (FFmpegDetector.customBinariesExist sys d)); cbn [snd].
      * cbn. intros [= <-]. apply Hcustom. reflexivity.
      * destruct (fst (FFmpegDetector.nativeExists sys)
                  && snd (FFmpegDetector.nativeExists sys)); cbn.
        -- intros [= <-]. reflexivity.
        -- rewrite Hc. discriminate.
  - unfold FFmpegDetector.forceNativeFFmpeg. cbv zeta.
    destruct (negb (fst (FFmpegDetector.nativeExists sys))
              || negb (snd (FFmpegDetector.nativeExists sys))); cbn.
    + apply Hinv.
    + intros [= <-]. reflexivity.
  - unfold FFmpegDetector.forceCustomFFmpeg. cbv zeta.
    destruct (negb (fst (FFmpegDetector.customBinariesExist sys d))
              || negb (snd (FFmpegDetector.customBinariesExist sys d))) eqn:Hn; cbn.
    + apply Hinv.
    + intros [= <-]. apply Hcustom.
      apply orb_false_iff in Hn as [H1 H2].
      apply negb_false_iff in H1, H2. rewrite H1, H2. reflexivity.
  - cbn. discriminate.
Qed.

Lemma calls_cache_complete (cs : list (FFmpegDetector.System * FFmpegDetector.Call)) :
  forall d, cache_complete d -> cache_complete (FFmpegDetector.calls cs d).
Proof.
  induction cs as [|[sys c] cs IH]; intros d Hd; [exact Hd|].
  cbn [FFmpegDetector.calls]. apply IH, call_cache_complete, Hd.
Qed.

(** X3: whatever sequence of calls a detector has been through, on whatever
    machines, the paths it hands out are complete: [ffmpeg] and [ffprobe]
    are both non-empty strings, for [detectFFmpegPaths], [forceNativeFFmpeg]
    and [forceCustomFFmpeg] alike.  The two [if] tests around
    [setFfmpegPath]/[setFfprobePath] in [Player.configureFFmpeg] therefore
    always pass. *)
Theorem detector_paths_complete
  (cs : list (FFmpegDetector.System * FFmpegDetector.Call))
  (sys : FFmpegDetector.System) (p : FFmpegDetector.FFmpegPaths) :
  let d := FFmpegDetector.calls cs FFmpegDetector.new in
  (fst (FFmpegDetector.detectFFmpegPaths sys d) = FFmpegDetector.Returned p
   \/ fst (FFmpegDetector.forceNativeFFmpeg sys d) = FFmpegDetector.Returned p
   \/ fst (FFmpegDetector.forceCustomFFmpeg sys d) = FFmpegDetector.Returned p) ->
  truthy (FFmpegDetector.ffmpeg p) = true /\ truthy (FFmpegDetector.ffprobe p) = true.
Proof.
  cbv zeta. intros Hret.
  set (d := FFmpegDetector.calls cs FFmpegDetector.new) in *.
  assert (Hd : cache_complete d).
  { apply calls_cache_complete. intros q Hq. discriminate Hq. }
  apply andb_true_iff. change (FFmpegDetector.complete p = true).
  destruct Hret as [H|[H|H]].
  - apply (call_cache_complete sys FFmpegDetector.CDetect d Hd).
    cbn [FFmpegDetector.call].
    destruct (FFmpegDetector.detectFFmpegPaths sys d) as [r d'] eqn:Hdet.
    cbn [fst snd] in *. subst r.
    exact (detect_returned_cached sys d d' p Hdet).
  - apply (call_cache_complete sys FFmpegDetector.CForceNative d Hd).
    cbn [FFmpegDetector.call]. revert H.
    unfold FFmpegDetector.forceNativeFFmpeg. cbv zeta.
    destruct (negb _ || negb _); cbn; [discriminate|].
    intros [= <-]. reflexivity.
  - apply (call_cache_complete sys FFmpegDetector.CForceCustom d Hd).
    cbn [FFmpegDetector.call]. revert H.
    unfold FFmpegDetector.forceCustomFFmpeg. cbv zeta.
    destruct (negb _ || negb _); cbn; [discriminate|].
    intros [= <-]. reflexivity.
Qed.

Lemma detect_throws_iff_nothing_usable_witness :
  fst (FFmpegDetector.detectFFmpegPaths bare_system FFmpegDetector.new)
  = FFmpegDetector.Thrown FFmpegDetector.FFmpegNotFound
  /\ snd (FFmpegDetector.detectFFmpegPaths bare_system FFmpegDetector.new)
     = FFmpegDetector.new.
Proof.
  destruct (proj2 (detect_throws_iff_nothing_usable bare_system FFmpegDetector.new)
              FFmpegDetector.FFmpegNotFound eq_refl) as [_ Hs].
  split; [reflexivity | exact Hs].
Defined.

Lemma detector_paths_complete_witness :
  truthy (Some "/opt/ffmpeg") = true /\ truthy (Some "/opt/ffprobe") = true.
Proof.
  apply (detector_paths_complete
           [(bare_system,
             FFmpegDetector.CSetCustomPaths (Some "/opt/ffmpeg") (Some "/opt/ffprobe"))]
           (custom_system "/opt/ffmpeg" "/opt/ffprobe")
           (FFmpegDetector.mkPaths (Some "/opt/ffmpeg") (Some "/opt/ffprobe") false)).
  left. reflexivity.
Defined.

Lemma set_custom_paths_forgets_history_aux
  (sys : FFmpegDetector.System) (d : FFmpegDetector.t) (a b : option string) :
  FFmpegDetector.detectFFmpegPaths sys (FFmpegDetector.setCustomPaths a b d)
  = FFmpegDetector.detectFFmpegPaths sys
      (FFmpegDetector.setCustomPaths a b FFmpegDetector.new)
  /\ (FFmpegDetector.pathExists sys a = true ->
      FFmpegDetector.pathExists sys b = true ->
      fst (FFmpegDetector.detectFFmpegPaths sys (FFmpegDetector.setCustomPaths a b d))
      = FFmpegDetector.Returned (FFmpegDetector.mkPaths a b false)).
Proof.
  split; [reflexivity|].
  intros Ha Hb. unfold FFmpegDetector.detectFFmpegPaths, FFmpegDetector.setCustomPaths.
  cbn. unfold FFmpegDetector.customBinariesExist. cbn. rewrite Ha, Hb. reflexivity.
Qed.

(** X4: [setCustomPaths] wipes the past.  Whatever the detector had cached
    or been given before, after [setCustomPaths(a, b)] a detection behaves
    as on a fresh detector given the same two paths: same outcome, same
    state afterwards.  With both files present it returns exactly [a] and
    [b], marked as not native, even on a machine that has native binaries. *)
Theorem set_custom_paths_forgets_history
  (sys : FFmpegDetector.System) (d : FFmpegDetector.t) (a b : option string) :
  FFmpegDetector.detectFFmpegPaths sys (FFmpegDetector.setCustomPaths a b d)
  = FFmpegDetector.detectFFmpegPaths sys
      (FFmpegDetector.setCustomPaths a b FFmpegDetector.new)
  /\ (FFmpegDetector.pathExists sys a = true ->
      FFmpegDetector.pathExists sys b = true ->
      fst (FFmpegDetector.detectFFmpegPaths sys (FFmpegDetector.setCustomPaths a b d))
      = FFmpegDetector.Returned (FFmpegDetector.mkPaths a b false)).
Proof. exact (set_custom_paths_forgets_history_aux sys d a b). Qed.

Lemma set_custom_paths_forgets_history_witness :
  fst (FFmpegDetector.detectFFmpegPaths
         (custom_system "/opt/ffmpeg" "/opt/ffprobe")
         (FFmpegDetector.setCustomPaths (Some "/opt/ffmpeg") (Some "/opt/ffprobe")
            (snd (FFmpegDetector.detectFFmpegPaths native_system FFmpegDetector.new))))
  = FFmpegDetector.Returned
      (FFmpegDetector.mkPaths (Some "/opt/ffmpeg") (Some "/opt/ffprobe") false).
Proof.
  apply (set_custom_paths_forgets_history
           (custom_system "/opt/ffmpeg" "/opt/ffprobe")
           (snd (FFmpegDetector.detectFFmpegPaths native_system FFmpegDetector.new))
           (Some "/opt/ffmpeg") (Some "/opt/ffprobe")); reflexivity.
Defined.

(** X5: [forceNativeFFmpeg] pins the native binaries.  When it succeeds,
    every later [detectFFmpegPaths] returns ['ffmpeg'] and ['ffprobe'] and
    not the custom paths, even where both custom files exist and would
    otherwise come first; when it throws, the detector is left untouched.
    It succeeds exactly when both commands are found. *)
Theorem force_native_pins_detection
  (sys sys' : FFmpegDetector.System) (d : FFmpegDetector.t) :
  let native := FFmpegDetector.nativeExists sys in
  (fst native && snd native = true ->
   fst (FFmpegDetector.forceNativeFFmpeg sys d)
     = FFmpegDetector.Returned FFmpegDetector.nativePaths
   /\ fst (FFmpegDetector.detectFFmpegPaths sys'
             (snd (FFmpegDetector.forceNativeFFmpeg sys d)))
      = FFmpegDetector.Returned FFmpegDetector.nativePaths)
  /\ (fst native && snd native = false ->
      FFmpegDetector.forceNativeFFmpeg sys d
      = (FFmpegDetector.Thrown FFmpegDetector.NativeFFmpegNotFound, d)).
Proof.
  cbv zeta. unfold FFmpegDetector.forceNativeFFmpeg. cbv zeta.
  destruct (fst (FFmpegDetector.nativeExists sys)) eqn:H1,
           (snd (FFmpegDetector.nativeExists sys)) eqn:H2; cbn;
    split; intros H; try discriminate; try reflexivity.
  split; reflexivity.
Qed.

Lemma force_native_pins_detection_witness :
  fst (FFmpegDetector.detectFFmpegPaths
         (custom_system "/opt/ffmpeg" "/opt/ffprobe")
         (snd (FFmpegDetector.forceNativeFFmpeg native_system
                 (FFmpegDetector.setCustomPaths (Some "/opt/ffmpeg")
                    (Some "/opt/ffprobe") FFmpegDetector.new))))
  = FFmpegDetector.Returned FFmpegDetector.nativePaths.
Proof.
  apply (proj1 (force_native_pins_detection native_system
                  (custom_system "/opt/ffmpeg" "/opt/ffprobe")
                  (FFmpegDetector.setCustomPaths (Some "/opt/ffmpeg")
                     (Some "/opt/ffprobe") FFmpegDetector.new))).
  reflexivity.
Defined.

(** X6: the availability report predicts detection.  On a detector with
    nothing cached, [detectFFmpegPaths] succeeds exactly when
    [getFFmpegAvailability] reports custom or native binaries available, and
    what it returns is the custom pair exactly when the report says custom is
    available (native otherwise).  The report itself never changes the
    detector: it is computed from the fields and the machine. *)
Theorem availability_predicts_detection
  (sys : FFmpegDetector.System) (d : FFmpegDetector.t) :
  FFmpegDetector._cachedPaths d = None ->
  let report := FFmpegDetector.getFFmpegAvailability sys d in
  fst (FFmpegDetector.detectFFmpegPaths sys d)
  = if FFmpegDetector.customAvailable report
    then FFmpegDetector.Returned (FFmpegDetector.customPaths d)
    else if FFmpegDetector.nativeAvailable report
         then FFmpegDetector.Returned FFmpegDetector.nativePaths
         else FFmpegDetector.Thrown FFmpegDetector.FFmpegNotFound.
Proof.
  intros Hc. cbv zeta.
  unfold FFmpegDetector.detectFFmpegPaths, FFmpegDetector.getFFmpegAvailability.
  rewrite Hc. cbv zeta. cbn [FFmpegDetector.customAvailable FFmpegDetector.nativeAvailable].
  destruct (fst (FFmpegDetector.customBinariesExist sys d)
            && snd (FFmpegDetector.customBinariesExist sys d)); [reflexivity|].
  destruct (fst (FFmpegDetector.nativeExists sys)
            && snd (FFmpegDetector.nativeExists sys)); reflexivity.
Qed.

Lemma availability_predicts_detection_witness :
  fst (FFmpegDetector.detectFFmpegPaths native_system FFmpegDetector.new)
  = FFmpegDetector.Returned FFmpegDetector.nativePaths.
Proof.
  apply (availability_predicts_detection native_system FFmpegDetector.new).
  reflexivity.
Defined.

(** ** Which binaries a [Player] ends up with *)

(** X7: what the constructor options decide, on a detector in any state.
    With [forceNativeFFmpeg: true] the first configuration yields the native
    pair or throws, whatever custom paths were given and even when those
    files exist.  Without it, two given paths that both exist are what is
    used, whatever the shared detector had cached or been given earlier.
    With no path given the detector is not touched by the constructor, so
    the outcome is that of a plain detection on its current state. *)
Theorem player_options_choose_binaries
  (options : PlayerOptions) (sys : FFmpegDetector.System) (d : FFmpegDetector.t) :
  (forceNativeFFmpeg options = Some true ->
   fst (construct_and_configure options sys d)
   = if FFmpegDetector.commandExists sys "ffmpeg"
        && FFmpegDetector.commandExists sys "ffprobe"
     then FFmpegDetector.Returned FFmpegDetector.nativePaths
     else FFmpegDetector.Thrown FFmpegDetector.NativeFFmpegNotFound)
  /\ (truthy_flag (forceNativeFFmpeg options) = false ->
      FFmpegDetector.pathExists sys (ffmpegPath options) = true ->
      FFmpegDetector.pathExists sys (ffprobePath options) = true ->
      fst (construct_and_configure options sys d)
      = FFmpegDetector.Returned
          (FFmpegDetector.mkPaths (ffmpegPath options) (ffprobePath options) false))
  /\ (truthy_flag (forceNativeFFmpeg options) = false ->
      truthy (ffmpegPath options) = false ->
      truthy (ffprobePath options) = false ->
      construct_and_configure options sys d
      = FFmpegDetector.detectFFmpegPaths sys d).
Proof.
  destruct options as [a b f].
  unfold construct_and_configure, constructor_options, spread, configure_detect,
    apply_custom_paths. cbn [ffmpegPath ffprobePath forceNativeFFmpeg].
  split; [|split].
  - intros ->. cbn [truthy_flag default from_option id].
    unfold FFmpegDetector.forceNativeFFmpeg, FFmpegDetector.nativeExists.
    cbv zeta. cbn [fst snd].
    destruct (FFmpegDetector.commandExists sys "ffmpeg"),
             (FFmpegDetector.commandExists sys "ffprobe");
      destruct a as [[|? ?]|], b as [[|? ?]|]; reflexivity.
  - intros Hf Ha Hb.
    pose proof (truthy_pathExists sys a Ha) as Hta.
    pose proof (truthy_pathExists sys b Hb) as Htb.
    assert (Hflag : truthy_flag (match f with Some v => Some v | None => Some false end)
                    = false) by (destruct f as [[|]|]; [discriminate | reflexivity..]).
    rewrite Hflag.
    assert (Ha' : match a with Some v => Some v | None => None end = a)
      by (destruct a; reflexivity).
    assert (Hb' : match b with Some v => Some v | None => None end = b)
      by (destruct b; reflexivity).
    rewrite Ha', Hb', Hta. cbn [orb]. unfold or_null. rewrite Hta, Htb.
    apply (proj2 (set_custom_paths_forgets_history_aux sys d a b) Ha Hb).
  - intros Hf Ha Hb.
    assert (Hflag : truthy_flag (match f with Some v => Some v | None => Some false end)
                    = false) by (destruct f as [[|]|]; [discriminate | reflexivity..]).
    rewrite Hflag.
    assert (Ha' : match a with Some v => Some v | None => None end = a)
      by (destruct a; reflexivity).
    assert (Hb' : match b with Some v => Some v | None => None end = b)
      by (destruct b; reflexivity).
    rewrite Ha', Hb', Ha, Hb. reflexivity.
Qed.

Lemma player_options_choose_binaries_witness :
  fst (construct_and_configure
         (mkOptions (Some "/opt/ffmpeg") (Some "/opt/ffprobe") (Some true))
         native_system
         (FFmpegDetector.setCustomPaths (Some "/opt/ffmpeg") (Some "/opt/ffprobe")
            FFmpegDetector.new))
  = FFmpegDetector.Returned FFmpegDetector.nativePaths.
Proof.
  exact (proj1 (player_options_choose_binaries
                  (mkOptions (Some "/opt/ffmpeg") (Some "/opt/ffprobe") (Some true))
                  native_system
                  (FFmpegDetector.setCustomPaths (Some "/opt/ffmpeg")
                     (Some "/opt/ffprobe") FFmpegDetector.new))
               eq_refl).
Defined.



(** ** Skipping, pausing and resuming *)

Lemma run_cons (env : Env) (i : Input) (rest : list Input) (p : Player) :
  run env (i :: rest) p
  = let '(_, p1, t1) := exec env i p in
    let '(u, p2, t2) := run env rest p1 in (u, p2, t1 ++ t2).
Proof. reflexivity. Qed.

Lemma run_app (env : Env) (l1 l2 : list Input) (p : Player) :
  run env (l1 ++ l2) p
  = let '(_, p1, t1) := run env l1 p in
    let '(u, p2, t2) := run env l2 p1 in (u, p2, t1 ++ t2).
Proof.
  revert p. induction l1 as [|i l1 IH]; intros p.
  - cbn. destruct (run env l2 p) as [[[] p2] t2]. reflexivity.
  - cbn [app]. rewrite !run_cons.
    destruct (exec env i p) as [[u0 p0] t0]. rewrite IH.
    destruct (run env l1 p0) as [[u1 p1] t1].
    destruct (run env l2 p1) as [[u2 p2] t2].
    rewrite app_assoc. reflexivity.
Qed.

Lemma play_probed_completed_eq (metadata : AudioFormat) (p : Player) :
  play_probed (SetupCompleted metadata) p
  = (tt,
     set_ffmpegCommand
       (Some (mkCommand (currentTrack p) (channels metadata) (sampleRate metadata)))
       (set_speaker (Some (mkSpeaker metadata)) p),
     [ANewSpeaker (mkSpeaker metadata);
      APipe (mkCommand (currentTrack p) (channels metadata) (sampleRate metadata))
        (mkSpeaker metadata)]).
Proof. destruct p as [q cfg pl pa ct pt c s st h latch]. reflexivity. Qed.

Lemma on_speaker_open_eq (now : Z) (p : Player) :
  on_speaker_open now p
  = (tt,
     set_progressInterval (Some (mkTimeout 1000)) (set_startTime now p),
     AEmit (EvStart (currentTrack p))
       :: option_list (AClearInterval <$> progressInterval p)
       ++ [ASetInterval (mkTimeout 1000)]).
Proof. destruct p as [q cfg pl pa ct pt c s st [h|] latch]; reflexivity. Qed.

(** A [play] entered on an idle controller for a track that exists, run
    through to the sink opening. *)
Lemma start_up_eq (env : Env) (filePath : option string) (track : string)
  (metadata : AudioFormat) (now : Z) (p : Player) :
  isFFmpegConfigured p || detectFFmpeg env = true ->
  fst (resolved filePath (set_isFFmpegConfigured true p)) = Some track ->
  truthy (Some track) = true ->
  existsSync env track = true ->
  exists t,
    run env (start_up filePath metadata now) p
    = (tt, playing track metadata now
             (snd (resolved filePath (set_isFFmpegConfigured true p))), t)
    /\ events t = [EvStart (Some track)].
Proof.
  intros Hok Hres Ht Hex.
  unfold start_up. rewrite run_cons. cbn [exec resume_cont].
  rewrite (play_configured_eq env filePath p Hok).
  destruct (resolved filePath (set_isFFmpegConfigured true p)) as [v p1] eqn:Hr.
  cbn [fst snd] in *. subst v. rewrite Ht.
  cbv beta iota zeta delta [from_option id]. rewrite Hex.
  cbv beta iota. rewrite run_cons. cbn [exec resume_cont].
  rewrite play_probed_completed_eq.
  cbv beta iota. rewrite run_cons. cbn [exec].
  rewrite on_speaker_open_eq.
  cbv beta iota. cbn [run]. unfold ret. eexists. split; [reflexivity|].
  rewrite !events_app, teardown_calls_no_event. reflexivity.
Qed.

Lemma resolved_none (p : Player) :
  resolved None p = (head (audioQueue p), set_audioQueue (tail (audioQueue p)) p).
Proof.
  unfold resolved, queue_getNext. unfold_m. cbn.
  destruct (audioQueue p); reflexivity.
Qed.

Lemma skip_eq (p : Player) :
  skip p = (tt, state_of (stop p), trace_of (stop p) ++ [ASetTimeout (CbPlay None) 100]).
Proof.
  unfold skip, bind, tell, state_of, trace_of.
  destruct (stop p) as [[[] p1] t1]. reflexivity.
Qed.

Lemma resume_idle_eq (p : Player) :
  resume (cleaned p) = (tt, cleaned p, [AAwait (KConfigured None)]).
Proof. reflexivity. Qed.

(** X8: [skip()] always sets exactly one timer, for [play()] with no
    argument after 100 ms, and otherwise does what [stop()] does: one [stop]
    event and a teardown when a track is playing, nothing at all when idle.
    So [skip()] on an idle controller amounts to a delayed [play()]. *)
Theorem skip_schedules_play (p : Player) :
  scheduled (trace_of (skip p)) = [(CbPlay None, 100%Z)]
  /\ count is_stop (trace_of (skip p)) = (if isPlaying p then 1 else 0)
  /\ state_of (skip p) = state_of (stop p)
  /\ (isPlaying p = false -> skip p = (tt, p, [ASetTimeout (CbPlay None) 100])).
Proof.
  rewrite skip_eq. unfold state_of at 1, trace_of at 1 2; cbn [fst snd].
  destruct (isPlaying p) eqn:Hp.
  - rewrite (stop_playing_eq p Hp). unfold trace_of, state_of; cbn [fst snd].
    split; [|split; [|split; [reflexivity | discriminate]]].
    + change (AEmit (EvStop (currentTrack p)) :: AWriteLatch true :: teardown_calls p)
        with ([AEmit (EvStop (currentTrack p)); AWriteLatch true] ++ teardown_calls p).
      unfold scheduled. rewrite !omap_app. fold (scheduled (teardown_calls p)).
      rewrite scheduled_teardown_calls. reflexivity.
    + change (AEmit (EvStop (currentTrack p)) :: AWriteLatch true :: teardown_calls p)
        with ([AEmit (EvStop (currentTrack p)); AWriteLatch true] ++ teardown_calls p).
      rewrite !count_app, count_teardown_calls. reflexivity.
  - rewrite (stop_idle_eq p Hp). unfold trace_of, state_of; cbn [fst snd].
    repeat split; reflexivity.
Qed.

Lemma skip_schedules_play_witness :
  skip (new_Player ["a.mp3"])
  = (tt, new_Player ["a.mp3"], [ASetTimeout (CbPlay None) 100]).
Proof.
  apply (proj2 (proj2 (proj2 (skip_schedules_play (new_Player ["a.mp3"]))))).
  reflexivity.
Defined.

(** After a [stop()] on a playing controller, a [play()] with no argument
    run through to the sink opening starts the head of the queue. *)
Lemma next_after_stop (env : Env) (p : Player) (next : string)
  (metadata : AudioFormat) (now : Z) :
  isFFmpegConfigured p || detectFFmpeg env = true ->
  head (audioQueue p) = Some next ->
  truthy (Some next) = true ->
  existsSync env next = true ->
  exists t,
    run env (start_up None metadata now)
      (cleaned (set__isStoppingIntentionally true p))
    = (tt,
       playing next metadata now
         (set_audioQueue (tail (audioQueue p))
            (set_isFFmpegConfigured true
               (cleaned (set__isStoppingIntentionally true p)))), t)
    /\ events t = [EvStart (Some next)].
Proof.
  intros Hok Hhead Ht Hex.
  destruct (start_up_eq env None next metadata now
              (cleaned (set__isStoppingIntentionally true p)))
    as (t & Hrun & Hev); try assumption.
  - rewrite resolved_none. exact Hhead.
  - exists t. split; [|exact Hev]. rewrite Hrun, resolved_none. reflexivity.
Qed.

Lemma skip_run_eq (env : Env) (p : Player) (next : string)
  (metadata : AudioFormat) (now : Z) :
  isPlaying p = true ->
  isFFmpegConfigured p || detectFFmpeg env = true ->
  head (audioQueue p) = Some next ->
  truthy (Some next) = true ->
  existsSync env next = true ->
  exists t,
    run env (CallSkip :: TimerFired (CbPlay None) :: start_up None metadata now) p
    = (tt,
       playing next metadata now
         (set_audioQueue (tail (audioQueue p))
            (set_isFFmpegConfigured true
               (cleaned (set__isStoppingIntentionally true p)))), t)
    /\ events t = [EvStop (currentTrack p); EvStart (Some next)].
Proof.
  intros Hp Hok Hhead Ht Hex.
  destruct (next_after_stop env p next metadata now Hok Hhead Ht Hex)
    as (t & Hrun & Hev).
  rewrite run_cons. cbn [exec]. rewrite skip_eq, (stop_playing_eq p Hp).
  unfold state_of, trace_of; cbn [fst snd]. cbv beta iota.
  rewrite run_cons. cbn [exec run_callback].
  rewrite play_idle_eq by reflexivity. cbv beta iota.
  rewrite Hrun. eexists. split; [reflexivity|].
  change (AEmit (EvStop (currentTrack p)) :: AWriteLatch true :: teardown_calls p)
    with ([AEmit (EvStop (currentTrack p)); AWriteLatch true] ++ teardown_calls p).
  rewrite !events_app, teardown_calls_no_event, Hev. reflexivity.
Qed.

Lemma pause_resume_run_eq (env : Env) (p : Player) (next : string)
  (metadata : AudioFormat) (now : Z) :
  isPlaying p = true ->
  isFFmpegConfigured p || detectFFmpeg env = true ->
  head (audioQueue p) = Some next ->
  truthy (Some next) = true ->
  existsSync env next = true ->
  exists t,
    run env (CallPause :: CallResume :: start_up None metadata now) p
    = (tt,
       playing next metadata now
         (set_audioQueue (tail (audioQueue p))
            (set_isFFmpegConfigured true
               (cleaned (set__isStoppingIntentionally true p)))), t)
    /\ events t = [EvStop (currentTrack p); EvStart (Some next)].
Proof.
  intros Hp Hok Hhead Ht Hex.
  destruct (next_after_stop env p next metadata now Hok Hhead Ht Hex)
    as (t & Hrun & Hev).
  rewrite run_cons. cbn [exec]. unfold pause. rewrite (stop_playing_eq p Hp).
  cbv beta iota. rewrite run_cons. cbn [exec].
  rewrite resume_idle_eq. cbv beta iota.
  rewrite Hrun. eexists. split; [reflexivity|].
  change (AEmit (EvStop (currentTrack p)) :: AWriteLatch true :: teardown_calls p)
    with ([AEmit (EvStop (currentTrack p)); AWriteLatch true] ++ teardown_calls p).
  rewrite !events_app, teardown_calls_no_event, Hev. reflexivity.
Qed.

(** X9: [skip()] moves on to the next track.  On a playing controller whose
    queue starts with an existing file, [skip()], its timer firing and the
    [play()] it triggers running through to the sink opening emit [stop]
    for the old track and then [start] for the head of the queue, and
    nothing else; the controller ends up playing that track, the latch
    cleared and the head removed from the queue. *)
Theorem skip_plays_next (env : Env) (p : Player) (next : string)
  (metadata : AudioFormat) (now : Z) :
  isPlaying p = true ->
  isFFmpegConfigured p || detectFFmpeg env = true ->
  head (audioQueue p) = Some next ->
  truthy (Some next) = true ->
  existsSync env next = true ->
  let r := run env (CallSkip :: TimerFired (CbPlay None)
                      :: start_up None metadata now) p in
  events (trace_of r) = [EvStop (currentTrack p); EvStart (Some next)]
  /\ currentTrack (state_of r) = Some next
  /\ isPlaying (state_of r) = true
  /\ _isStoppingIntentionally (state_of r) = false
  /\ audioQueue (state_of r) = tail (audioQueue p).
Proof.
  intros Hp Hok Hhead Ht Hex. cbv zeta.
  destruct (skip_run_eq env p next metadata now Hp Hok Hhead Ht Hex)
    as (t & Hrun & Hev).
  rewrite Hrun. unfold trace_of, state_of; cbn [fst snd].
  split; [exact Hev | repeat split; reflexivity].
Qed.

Lemma skip_plays_next_witness :
  events (trace_of (run (files ["a.mp3"; "b.mp3"])
                      (CallSkip :: TimerFired (CbPlay None)
                         :: start_up None (mkFormat 2 44100 16) 5000)
                      playing_example))
  = [EvStop (Some "a.mp3"); EvStart (Some "b.mp3")].
Proof.
  exact (proj1 (skip_plays_next (files ["a.mp3"; "b.mp3"]) playing_example "b.mp3"
                  (mkFormat 2 44100 16) 5000 eq_refl eq_refl eq_refl eq_refl eq_refl)).
Defined.

(** X10: [pause()] followed by [resume()] does not resume the paused track.
    It has the outcome of [skip()]: [stop] for the old track, then [start]
    for the head of the queue, and the same fields at the end; the track
    that was playing is not put back. *)
Theorem pause_resume_plays_next (env : Env) (p : Player) (next : string)
  (metadata : AudioFormat) (now : Z) :
  isPlaying p = true ->
  isFFmpegConfigured p || detectFFmpeg env = true ->
  head (audioQueue p) = Some next ->
  truthy (Some next) = true ->
  existsSync env next = true ->
  let r := run env (CallPause :: CallResume :: start_up None metadata now) p in
  events (trace_of r) = [EvStop (currentTrack p); EvStart (Some next)]
  /\ currentTrack (state_of r) = Some next
  /\ state_of r
     = state_of (run env (CallSkip :: TimerFired (CbPlay None)
                            :: start_up None metadata now) p).
Proof.
  intros Hp Hok Hhead Ht Hex. cbv zeta.
  destruct (skip_run_eq env p next metadata now Hp Hok Hhead Ht Hex)
    as (t1 & Hskip & _).
  destruct (pause_resume_run_eq env p next metadata now Hp Hok Hhead Ht Hex)
    as (t & Hrun & Hev).
  rewrite Hrun, Hskip. unfold trace_of, state_of; cbn [fst snd].
  split; [exact Hev | split; reflexivity].
Qed.

Lemma pause_resume_plays_next_witness :
  events (trace_of (run (files ["a.mp3"; "b.mp3"])
                      (CallPause :: CallResume
                         :: start_up None (mkFormat 2 44100 16) 5000)
                      playing_example))
  = [EvStop (Some "a.mp3"); EvStart (Some "b.mp3")].
Proof.
  exact (proj1 (pause_resume_plays_next (files ["a.mp3"; "b.mp3"]) playing_example
                  "b.mp3" (mkFormat 2 44100 16) 5000
                  eq_refl eq_refl eq_refl eq_refl eq_refl)).
Defined.

(** ** Teardown callbacks *)

Lemma destroy_eq (p : Player) :
  destroy p = (tt, cleaned p, teardown_calls p ++ [ARemoveAllListeners]).
Proof. unfold destroy, bind, tell. rewrite _cleanup_eq. reflexivity. Qed.

(** X11: [destroy()] tears down without touching the latch.  If the latch
    was clear, the callbacks its own teardown provokes are therefore not
    recognised as echoes: the sink's [close] is handled as a natural end
    (an [end] event with a null track, and the head of the queue taken and
    scheduled when there is one), and a decoder error is emitted as an
    [error] event. *)
Theorem destroy_does_not_arm_latch (p : Player) :
  _isStoppingIntentionally p = false ->
  let p' := state_of (destroy p) in
  let t := trace_of (on_speaker_close p') in
  _isStoppingIntentionally p' = false
  /\ ARemoveAllListeners ∈ trace_of (destroy p)
  /\ head (events t) = Some (EvEnd None)
  /\ audioQueue (state_of (on_speaker_close p')) = tail (audioQueue p)
  /\ (truthy (head (audioQueue p)) = true ->
      scheduled t = [(CbPlay (head (audioQueue p)), 100%Z)])
  /\ (forall err, events (trace_of (on_ffmpeg_error err p')) = [EvError err]).
Proof.
  intros Hl. cbv zeta. rewrite destroy_eq.
  unfold state_of, trace_of; cbn [fst snd].
  unfold on_speaker_close.
  rewrite (_handleTrackEnd_natural_eq (cleaned p)) by exact Hl.
  cbn [fst snd].
  split; [exact Hl|]. split.
  { apply elem_of_app. right. apply list_elem_of_In. left. reflexivity. }
  split; [reflexivity|]. split.
  { destruct p as [[|x q] cfg pl pa ct pt c s st h latch]; reflexivity. }
  split.
  - intros Ht. unfold advance, AudioQueue.peek.
    change (audioQueue (cleaned p)) with (audioQueue p). rewrite Ht. reflexivity.
  - intros err. unfold on_ffmpeg_error. unfold_m. cbn. rewrite Hl. reflexivity.
Qed.

Lemma destroy_does_not_arm_latch_witness :
  head (events (trace_of (on_speaker_close (state_of (destroy playing_example)))))
  = Some (EvEnd None).
Proof.
  pose proof (destroy_does_not_arm_latch playing_example eq_refl)
    as (_ & _ & H & _).
  exact H.
Defined.

Lemma echo_silent (env : Env) (i : Input) (p : Player) :
  _isStoppingIntentionally p = true -> is_echo i = true ->
  exec env i p = (tt, p, []).
Proof.
  intros Hl Hi.
  destruct i as [fp| | | | | | |qo|k o|cb|now|now| |err|err| ]; try discriminate;
    cbn [exec].
  - unfold on_speaker_close, _handleTrackEnd. unfold_m. rewrite Hl. reflexivity.
  - unfold on_speaker_error. unfold_m. rewrite Hl. cbn in Hi. rewrite Hi. reflexivity.
  - unfold on_ffmpeg_error. unfold_m. rewrite Hl. reflexivity.
Qed.

(** X12: after [stop()] on a playing controller, the callbacks its teardown
    provokes change nothing and emit nothing, however many arrive and in
    whatever order: sink [close], decoder errors, sink write-after-end
    errors.  In particular no [end] is emitted and the queue does not
    advance. *)
Theorem stop_echoes_are_silent (env : Env) (p : Player) (echoes : list Input) :
  isPlaying p = true ->
  forallb is_echo echoes = true ->
  run env echoes (state_of (stop p)) = (tt, state_of (stop p), []).
Proof.
  intros Hp Hall. rewrite (stop_playing_eq p Hp). unfold state_of; cbn [fst snd].
  set (p' := cleaned (set__isStoppingIntentionally true p)).
  assert (Hl : _isStoppingIntentionally p' = true) by reflexivity.
  clearbody p'. induction echoes as [|i rest IH]; [reflexivity|].
  cbn [forallb] in Hall. apply andb_true_iff in Hall as [Hi Hrest].
  rewrite run_cons, (echo_silent env i p' Hl Hi). cbv beta iota.
  rewrite (IH Hrest). reflexivity.
Qed.

Lemma stop_echoes_are_silent_witness :
  run (files []) [FfmpegError sigkill; SpeakerError write_after_end; SpeakerClose]
    (state_of (stop playing_example))
  = (tt, state_of (stop playing_example), []).
Proof.
  apply (stop_echoes_are_silent (files []) playing_example
           [FfmpegError sigkill; SpeakerError write_after_end; SpeakerClose]);
    reflexivity.
Defined.


(** ** Setting a track up *)





(** ** The queue and [play] *)

(** X16: [play] leaves the queue alone when it is given a usable path, and
    takes exactly the head when it is not.  After the continuation of
    [play(filePath)] the queue is unchanged if configuration failed or
    [filePath] is a non-empty string, whether or not that file exists, and
    is the tail of what it was otherwise (also when [filePath] is the empty
    string). *)
Theorem play_consumes_queue_only_without_path
  (env : Env) (filePath : option string) (p : Player) :
  audioQueue (state_of (play_configured env filePath p))
  = if (isFFmpegConfigured p || detectFFmpeg env) && negb (truthy filePath)
    then tail (audioQueue p)
    else audioQueue p.
Proof.
  destruct (isFFmpegConfigured p || detectFFmpeg env) eqn:Hok.
  - rewrite (play_configured_eq env filePath p Hok). cbn [andb].
    unfold resolved, queue_getNext. unfold_m.
    destruct (truthy filePath) eqn:Hfp; cbn [negb fst snd].
    + rewrite Hfp. cbv zeta. destruct (existsSync env _); reflexivity.
    + destruct p as [[|x q] cfg pl pa ct pt c s st h latch]; cbn.
      * reflexivity.
      * destruct x as [|a y]; cbn; [reflexivity|].
        destruct (existsSync env _); reflexivity.
  - apply orb_false_elim in Hok as [Hc Hd].
    rewrite (play_configured_rejects env filePath p Hc Hd). reflexivity.
Qed.

(** ** Progress *)

Lemma resolved_never_paused (filePath : option string) (p : Player) :
  never_paused p -> never_paused (snd (resolved filePath p)).
Proof.
  unfold resolved, queue_getNext. unfold_m.
  destruct (truthy filePath); [tauto|].
  destruct (audioQueue p); tauto.
Qed.

Lemma exec_never_paused (env : Env) (i : Input) (p : Player) :
  never_paused p -> never_paused (state_of (exec env i p)).
Proof.
  unfold never_paused. intros Hinv.
  destruct i as [fp| | | | | | |qo|[fp|] o|cb|now|now| |err|err| ]; cbn [exec resume_cont].
  - destruct p as [q cfg [|] pa ct pt c s st h latch]; exact Hinv.
  - destruct p as [q cfg [|] pa ct pt [c|] [s|] st [h|] latch]; cbn in *; tauto.
  - destruct p as [q cfg [|] pa [ct|] pt c s st h latch]; exact Hinv.
  - destruct p as [q cfg [|] pa ct pt [c|] [s|] st [h|] latch]; cbn in *; tauto.
  - destruct p as [q cfg [|] pa ct pt [c|] [s|] st [h|] latch]; cbn in *; tauto.
  - destruct p as [q cfg pl pa ct pt [c|] [s|] st [h|] latch]; cbn in *; tauto.
  - destruct p as [q [|] pl pa ct pt c s st h latch];
      unfold reconfigureFFmpeg, configureFFmpeg; unfold_m; cbn;
      destruct (detectFFmpeg env); exact Hinv.
  - exact Hinv.
  - destruct (isFFmpegConfigured p || detectFFmpeg env) eqn:Hok.
    + rewrite (play_configured_eq env fp p Hok).
      pose proof (resolved_never_paused fp (set_isFFmpegConfigured true p) Hinv) as Hr.
      destruct (resolved fp (set_isFFmpegConfigured true p)) as [v p1].
      cbn [snd] in Hr. unfold never_paused in Hr.
      destruct (truthy v); [cbv zeta; destruct (existsSync env _)|];
        unfold state_of; cbn; tauto.
    + apply orb_false_elim in Hok as [Hc Hd].
      rewrite (play_configured_rejects env fp p Hc Hd). exact Hinv.
  - destruct o; destruct p as [q cfg pl pa ct pt [c|] [s|] st [h|] latch];
      cbn in *; tauto.
  - destruct cb as [fp]. destruct p as [q cfg [|] pa ct pt c s st h latch]; exact Hinv.
  - destruct p as [q cfg [|] [|] ct pt c s st h latch]; exact Hinv.
  - destruct p as [q cfg pl pa ct pt c s st [h|] latch]; exact Hinv.
  - destruct p as [q cfg pl pa ct pt [c|] [s|] st [h|] [|]]; try exact Hinv;
      destruct q as [|[|a x] q]; cbn in *; tauto.
  - destruct p as [q cfg pl pa ct pt [c|] [s|] st [h|] [|]];
      unfold on_speaker_error; unfold_m; cbn;
      try case_bool_decide; cbn in *; tauto.
  - destruct p as [q cfg pl pa ct pt [c|] [s|] st [h|] [|]]; cbn in *; tauto.
  - exact Hinv.
Qed.

Lemma reachable_never_paused (env : Env) (p : Player) :
  reachable env p -> never_paused p.
Proof.
  induction 1 as [q|p i Hp IH].
  - split; reflexivity.
  - apply exec_never_paused. exact IH.
Qed.

(** X17: the controller is never paused, and progress is time since the
    sink opened.  In every reachable state [isPaused] is false and
    [pausedTime] is 0, so [getCurrentProgress()] is 0 when idle and
    [(now - startTime) / 1000] when playing; and the progress timer's
    callback emits a [progress] event exactly when playing, for the current
    track, whose [elapsed] is what [getCurrentProgress()] returns at the same
    clock reading. *)
Theorem progress_is_time_since_open (env : Env) (p : Player) (now : Z) :
  reachable env p ->
  isPaused p = false
  /\ pausedTime p = 0%Z
  /\ getCurrentProgress now p
     = (if isPlaying p then seconds (now - startTime p) else 0%Q)
  /\ events (trace_of (on_progress_tick now p))
     = (if isPlaying p
        then [EvProgress (currentTrack p) (getCurrentProgress now p)]
        else []).
Proof.
  intros Hreach. destruct (reachable_never_paused env p Hreach) as [Hpa Hpt].
  split; [exact Hpa|]. split; [exact Hpt|].
  unfold getCurrentProgress, on_progress_tick. unfold_m. rewrite Hpa.
  destruct (isPlaying p); split; reflexivity.
Qed.

Lemma progress_is_time_since_open_witness :
  getCurrentProgress 3500 started_example = seconds 2500.
Proof.
  pose proof (progress_is_time_since_open (files ["a.mp3"]) started_example 3500
                started_example_reachable) as (_ & _ & H & _).
  exact H.
Defined.

(** ** The progress timer *)

Lemma tally_app (f : Action -> bool) (t1 t2 : list Action) :
  tally f (t1 ++ t2) = tally f t1 + tally f t2.
Proof. unfold tally. rewrite filter_app, length_app. reflexivity. Qed.

Lemma tally_teardown_calls (p : Player) :
  tally is_set_interval (teardown_calls p) = 0
  /\ tally is_clear_interval (teardown_calls p) = timer_held p.
Proof.
  unfold teardown_calls, timer_held.
  destruct (progressInterval p), (ffmpegCommand p), (speaker p); split; reflexivity.
Qed.

(** One turn sets as many timers as it clears, up to the change in whether
    one is held. *)
Lemma exec_timer_balance (env : Env) (i : Input) (p : Player) :
  tally is_set_interval (trace_of (exec env i p)) + timer_held p
  = tally is_clear_interval (trace_of (exec env i p))
    + timer_held (state_of (exec env i p)).
Proof.
  destruct i as [fp| | | | | | |qo|[fp|] o|cb|now|now| |err|err| ]; cbn [exec resume_cont].
  - destruct p as [q cfg [|] pa ct pt c s st [h|] latch]; reflexivity.
  - destruct p as [q cfg [|] pa ct pt [c|] [s|] st [h|] latch]; reflexivity.
  - destruct p as [q cfg [|] pa [ct|] pt c s st [h|] latch]; reflexivity.
  - destruct p as [q cfg [|] pa ct pt [c|] [s|] st [h|] latch]; reflexivity.
  - destruct p as [q cfg [|] pa ct pt [c|] [s|] st [h|] latch]; reflexivity.
  - destruct p as [q cfg pl pa ct pt [c|] [s|] st [h|] latch]; reflexivity.
  - destruct p as [q [|] pl pa ct pt c s st [h|] latch];
      unfold reconfigureFFmpeg, configureFFmpeg; unfold_m; cbn;
      destruct (detectFFmpeg env); reflexivity.
  - destruct p as [q cfg pl pa ct pt c s st [h|] latch]; reflexivity.
  - destruct (isFFmpegConfigured p || detectFFmpeg env) eqn:Hok.
    + rewrite (play_configured_eq env fp p Hok).
      assert (Hh : timer_held (snd (resolved fp (set_isFFmpegConfigured true p)))
                   = timer_held p).
      { destruct p as [[|x q] cfg pl pa ct pt c s st h latch];
          unfold resolved, queue_getNext; unfold_m;
          destruct (truthy fp); reflexivity. }
      destruct (resolved fp (set_isFFmpegConfigured true p)) as [v p1].
      cbn [snd] in Hh. rewrite <- Hh.
      destruct (tally_teardown_calls p1) as [Hs Hc].
      destruct (truthy v); [cbv zeta; destruct (existsSync env _)|];
        unfold trace_of, state_of; cbn [fst snd];
        rewrite ?tally_app, ?Hs, ?Hc; cbn; lia.
    + apply orb_false_elim in Hok as [Hc Hd].
      rewrite (play_configured_rejects env fp p Hc Hd). reflexivity.
  - destruct o; destruct p as [q cfg pl pa ct pt [c|] [s|] st [h|] latch]; reflexivity.
  - destruct cb as [fp]. destruct p as [q cfg [|] pa ct pt c s st [h|] latch]; reflexivity.
  - destruct p as [q cfg [|] [|] ct pt c s st [h|] latch]; reflexivity.
  - destruct p as [q cfg pl pa ct pt c s st [h|] latch]; reflexivity.
  - destruct p as [q cfg pl pa ct pt [c|] [s|] st [h|] [|]]; try reflexivity;
      destruct q as [|[|a x] q]; reflexivity.
  - destruct p as [q cfg pl pa ct pt [c|] [s|] st [h|] [|]];
      unfold on_speaker_error; unfold_m; cbn;
      try case_bool_decide; reflexivity.
  - destruct p as [q cfg pl pa ct pt [c|] [s|] st [h|] [|]]; reflexivity.
  - destruct p as [q cfg pl pa ct pt c s st [h|] latch]; reflexivity.
Qed.

Lemma run_timer_balance (env : Env) (inputs : list Input) :
  forall p,
    tally is_set_interval (trace_of (run env inputs p)) + timer_held p
    = tally is_clear_interval (trace_of (run env inputs p))
      + timer_held (state_of (run env inputs p)).
Proof.
  induction inputs as [|i rest IH]; intros p; [reflexivity|].
  rewrite run_cons. pose proof (exec_timer_balance env i p) as Hi.
  destruct (exec env i p) as [[u1 p1] t1]. specialize (IH p1).
  destruct (run env rest p1) as [[u2 p2] t2].
  unfold trace_of, state_of in *; cbn [fst snd] in *.
  rewrite !tally_app. lia.
Qed.

(** X18: progress timers do not pile up.  Over any sequence of calls and
    callbacks on a new controller, every [setInterval] but at most one has
    been matched by a [clearInterval], and one is outstanding exactly when
    the controller holds a timer handle: the number set is the number
    cleared plus 1 if [progressInterval] is non-null, plus 0 otherwise. *)
Theorem progress_timers_balance (env : Env) (inputs : list Input) (q : list string) :
  let r := run env inputs (new_Player q) in
  tally is_set_interval (trace_of r)
  = tally is_clear_interval (trace_of r) + timer_held (state_of r).
Proof.
  cbv zeta. pose proof (run_timer_balance env inputs (new_Player q)) as H.
  cbn [timer_held new_Player progressInterval] in H. lia.
Qed.

(** ** Playing through a queue *)



Lemma on_ffmpeg_end_eq (p : Player) :
  on_ffmpeg_end p = (tt, set__isStoppingIntentionally false p, [AWriteLatch false]).
Proof. reflexivity. Qed.

Lemma ended_playing_fields (track : string) (metadata : AudioFormat) (now : Z)
  (p0 : Player) :
  audioQueue (ended (playing track metadata now p0)) = tail (audioQueue p0)
  /\ isFFmpegConfigured (ended (playing track metadata now p0))
     = isFFmpegConfigured p0
  /\ isPlaying (ended (playing track metadata now p0)) = false
  /\ speaker (ended (playing track metadata now p0)) = None
  /\ ffmpegCommand (ended (playing track metadata now p0)) = None.
Proof.
  destruct p0 as [[|x q] cfg pl pa ct pt c s st h latch]; repeat split.
Qed.

Lemma natural_end_trace (track : string) (metadata : AudioFormat) (now : Z)
  (p0 : Player) :
  events
    ([AWriteLatch false]
     ++ (AEmit (EvEnd (currentTrack (set__isStoppingIntentionally false
                                       (playing track metadata now p0))))
         :: teardown_calls (set__isStoppingIntentionally false
                              (playing track metadata now p0))
         ++ [advance (AudioQueue.peek
                        (audioQueue (set__isStoppingIntentionally false
                                       (playing track metadata now p0))))])
     ++ [])
  = EvEnd (Some track)
      :: (if truthy (head (audioQueue p0)) then [] else [EvQueueEnd]).
Proof.
  destruct p0 as [[|[|a x] q] cfg pl pa ct pt c s st h latch]; reflexivity.
Qed.

(** The track that is playing comes to its natural end. *)
Lemma natural_end_eq (env : Env) (track : string) (metadata : AudioFormat)
  (now : Z) (p0 : Player) :
  exists t,
    run env natural_end (playing track metadata now p0)
    = (tt, ended (playing track metadata now p0), t)
    /\ events t
       = EvEnd (Some track)
           :: (if truthy (head (audioQueue p0)) then [] else [EvQueueEnd]).
Proof.
  unfold natural_end. rewrite run_cons. cbn [exec]. rewrite on_ffmpeg_end_eq.
  cbv beta iota. rewrite run_cons. cbn [exec]. unfold on_speaker_close.
  rewrite _handleTrackEnd_natural_eq by reflexivity.
  cbv beta iota. cbn [run]. unfold ret. eexists. split; [reflexivity|].
  apply natural_end_trace.
Qed.

(** From a track playing to the end of the queue behind it. *)
Lemma playlist_tail (env : Env) (metadata : AudioFormat) (now : Z)
  (rest : list string) :
  forall (track : string) (p0 : Player),
    audioQueue p0 = rest ->
    isFFmpegConfigured p0 = true ->
    Forall (playable env) rest ->
    exists p' t,
      run env (natural_end ++ continue_with rest metadata now)
        (playing track metadata now p0) = (tt, p', t)
      /\ events t
         = EvEnd (Some track)
             :: flat_map (fun x => [EvStart (Some x); EvEnd (Some x)]) rest
             ++ [EvQueueEnd]
      /\ audioQueue p' = []
      /\ isPlaying p' = false
      /\ speaker p' = None
      /\ ffmpegCommand p' = None.
Proof.
  induction rest as [|next rest IH]; intros track p0 Hq Hcfg Hall.
  - destruct (natural_end_eq env track metadata now p0) as (t & Hrun & Hev).
    destruct (ended_playing_fields track metadata now p0)
      as (Hq1 & _ & Hp1 & Hs1 & Hc1).
    cbn [continue_with]. rewrite app_nil_r, Hrun.
    eexists _, _. split; [reflexivity|].
    split; [rewrite Hev, Hq; reflexivity|].
    split; [rewrite Hq1, Hq; reflexivity|].
    split; [exact Hp1|]. split; [exact Hs1 | exact Hc1].
  - apply Forall_cons in Hall as [[Ht Hex] Hall].
    destruct (natural_end_eq env track metadata now p0) as (t1 & Hrun1 & Hev1).
    destruct (ended_playing_fields track metadata now p0)
      as (Hq1 & Hcfg1 & Hp1 & _).
    rewrite Hq in Hq1, Hev1. rewrite Hcfg in Hcfg1.
    change (head (next :: rest)) with (Some next) in Hev1. rewrite Ht in Hev1.
    change (tail (next :: rest)) with rest in Hq1.
    generalize dependent (ended (playing track metadata now p0)). intros p1 Hrun1 Hq1 Hcfg1 Hp1.
    destruct (start_up_eq env (Some next) next metadata now p1)
      as (t2 & Hrun2 & Hev2); try assumption.
    { rewrite Hcfg1. reflexivity. }
    { unfold resolved. unfold_m. rewrite Ht. reflexivity. }
    assert (Hres : snd (resolved (Some next) (set_isFFmpegConfigured true p1))
                   = set_isFFmpegConfigured true p1).
    { unfold resolved. unfold_m. rewrite Ht. reflexivity. }
    rewrite Hres in Hrun2.
    destruct (IH next (set_isFFmpegConfigured true p1))
      as (p' & t3 & Hrun3 & Hev3 & Hfinal);
      [exact Hq1 | reflexivity | exact Hall |].
    cbn [continue_with]. rewrite run_app, Hrun1. cbv beta iota.
    rewrite run_cons. cbn [exec run_callback].
    rewrite (play_idle_eq (Some next) p1 Hp1). cbv beta iota.
    rewrite run_app, Hrun2. cbv beta iota. rewrite Hrun3.
    eexists _, _. split; [reflexivity|]. split; [|exact Hfinal].
    rewrite !events_app, Hev1, Hev2, Hev3. reflexivity.
Qed.

(** X20: a queue of existing files plays through.  [play()] on a new
    controller, each track started up and left to end naturally, emits
    [start] and [end] for every track in queue order and then one
    [queue-end], and nothing else; at the end the queue is empty and the
    controller idle with no sink or decoder. *)
Theorem playlist_plays_through (env : Env) (metadata : AudioFormat) (now : Z)
  (tracks : list string) :
  detectFFmpeg env = true ->
  Forall (playable env) tracks ->
  let r := run env (playlist_inputs tracks metadata now) (new_Player tracks) in
  events (trace_of r) = playlist_events tracks
  /\ audioQueue (state_of r) = []
  /\ isPlaying (state_of r) = false
  /\ speaker (state_of r) = None
  /\ ffmpegCommand (state_of r) = None.
Proof.
  intros Hd Hall. cbv zeta. unfold playlist_events.
  destruct tracks as [|first rest].
  - cbn [playlist_inputs]. rewrite run_cons. cbn [exec].
    rewrite play_idle_eq by reflexivity. cbv beta iota.
    rewrite run_cons. cbn [exec resume_cont].
    rewrite (play_configured_queue_end env None (new_Player []))
      by (cbn; rewrite ?Hd; reflexivity).
    repeat split.
  - apply Forall_cons in Hall as [[Ht Hex] Hall].
    destruct (start_up_eq env None first metadata now (new_Player (first :: rest)))
      as (t1 & Hrun1 & Hev1); [exact Hd | reflexivity | exact Ht | exact Hex |].
    assert (Hsnd : snd (resolved None
                          (set_isFFmpegConfigured true (new_Player (first :: rest))))
                   = set_audioQueue rest
                       (set_isFFmpegConfigured true (new_Player (first :: rest))))
      by reflexivity.
    rewrite Hsnd in Hrun1.
    destruct (playlist_tail env metadata now rest first
                (set_audioQueue rest
                   (set_isFFmpegConfigured true (new_Player (first :: rest)))))
      as (p' & t2 & Hrun2 & Hev2 & Hfinal); try reflexivity; try assumption.
    cbn [playlist_inputs]. rewrite run_cons. cbn [exec].
    rewrite play_idle_eq by reflexivity. cbv beta iota.
    rewrite run_app, Hrun1. cbv beta iota. rewrite Hrun2.
    unfold trace_of, state_of; cbn [fst snd].
    split; [|exact Hfinal].
    change ([AAwait (KConfigured None)] ++ t1 ++ t2)
      with ([AAwait (KConfigured None)] ++ t1 ++ t2).
    rewrite !events_app, Hev1, Hev2. reflexivity.
Qed.

Lemma playlist_plays_through_witness :
  events (trace_of (run (files ["a.mp3"; "b.mp3"])
                      (playlist_inputs ["a.mp3"; "b.mp3"] (mkFormat 2 44100 16) 1000)
                      (new_Player ["a.mp3"; "b.mp3"])))
  = [EvStart (Some "a.mp3"); EvEnd (Some "a.mp3");
     EvStart (Some "b.mp3"); EvEnd (Some "b.mp3"); EvQueueEnd].
Proof.
  apply (playlist_plays_through (files ["a.mp3"; "b.mp3"]) (mkFormat 2 44100 16) 1000
           ["a.mp3"; "b.mp3"]).
  - reflexivity.
  - repeat constructor.
Defined.

(** ** Callbacks and calls that cross *)

Lemma play_configured_playable (env : Env) (filePath : option string)
  (p : Player) (track : string) :
  isFFmpegConfigured p || detectFFmpeg env = true ->
  fst (resolved filePath (set_isFFmpegConfigured true p)) = Some track ->
  truthy (Some track) = true ->
  existsSync env track = true ->
  play_configured env filePath p =
    (tt, loading track (cleaned (snd (resolved filePath (set_isFFmpegConfigured true p)))),
     teardown_calls (snd (resolved filePath (set_isFFmpegConfigured true p)))
       ++ [AWriteLatch false; AProbe (Some track); AAwait KProbed]).
Proof.
  intros Hok Hres Ht Hex. rewrite (play_configured_eq env filePath p Hok).
  destruct (resolved filePath (set_isFFmpegConfigured true p)) as [v p1].
  cbn [fst snd] in *. subst v. rewrite Ht.
  cbv beta iota zeta delta [from_option id]. rewrite Hex. reflexivity.
Qed.

(** X21: the sink's [close] callback is not tied to the track it belongs
    to.  If, after [skip()], the [close] of the old sink arrives only once
    the [play()] set off by the timer has resumed and cleared the latch, it
    is taken for the natural end of the new track: [end] is emitted for the
    head of the queue, which never started, the controller is torn down, and
    a second entry is taken from the queue. *)
Theorem late_close_ends_next_track (env : Env) (p : Player) (next : string)
  (metadata : AudioFormat) :
  isPlaying p = true ->
  isFFmpegConfigured p || detectFFmpeg env = true ->
  head (audioQueue p) = Some next ->
  playable env next ->
  let r := run env (skip_then_late_close metadata) p in
  events (trace_of r)
  = EvStop (currentTrack p) :: EvEnd (Some next)
      :: (if truthy (head (tail (audioQueue p))) then [] else [EvQueueEnd])
  /\ count is_start (trace_of r) = 0
  /\ isPlaying (state_of r) = false
  /\ currentTrack (state_of r) = None
  /\ audioQueue (state_of r) = tail (tail (audioQueue p)).
Proof.
  intros Hp Hok Hhead [Ht Hex]. cbv zeta.
  set (p1 := cleaned (set__isStoppingIntentionally true p)).
  assert (Hres : resolved None (set_isFFmpegConfigured true p1)
                 = (Some next, set_audioQueue (tail (audioQueue p))
                                 (set_isFFmpegConfigured true p1))).
  { rewrite resolved_none. unfold p1. cbn [audioQueue cleaned set_isFFmpegConfigured
      set__isStoppingIntentionally]. rewrite Hhead. reflexivity. }
  assert (Hrun : run env (skip_then_late_close metadata) p
    = (tt,
       popped (cleaned (loading next
                          (cleaned (set_audioQueue (tail (audioQueue p))
                                      (set_isFFmpegConfigured true p1))))),
       ([AEmit (EvStop (currentTrack p)); AWriteLatch true] ++ teardown_calls p
          ++ [ASetTimeout (CbPlay None) 100])
       ++ [AAwait (KConfigured None)]
       ++ (teardown_calls (set_audioQueue (tail (audioQueue p))
                             (set_isFFmpegConfigured true p1))
             ++ [AWriteLatch false; AProbe (Some next); AAwait KProbed])
       ++ (AEmit (EvEnd (Some next))
             :: teardown_calls (loading next
                                  (cleaned (set_audioQueue (tail (audioQueue p))
                                              (set_isFFmpegConfigured true p1))))
             ++ [advance (head (tail (audioQueue p)))])
       ++ [])).
  { unfold skip_then_late_close. rewrite run_cons. cbn [exec].
    rewrite skip_eq, (stop_playing_eq p Hp).
    unfold state_of, trace_of; cbn [fst snd]. fold p1. cbv beta iota.
    rewrite run_cons. cbn [exec run_callback].
    rewrite (play_idle_eq None p1) by reflexivity. cbv beta iota.
    rewrite run_cons. cbn [exec resume_cont].
    rewrite (play_configured_playable env None p1 next)
      by (rewrite ?Hres; first [exact Hok | reflexivity | assumption]).
    rewrite Hres. cbn [fst snd]. cbv beta iota.
    rewrite run_cons. cbn [exec]. unfold on_speaker_close.
    rewrite _handleTrackEnd_natural_eq by reflexivity.
    cbv beta iota. cbn [run]. unfold ret. reflexivity. }
  rewrite Hrun. unfold trace_of, state_of; cbn [fst snd].
  assert (Hev : events
    (([AEmit (EvStop (currentTrack p)); AWriteLatch true] ++ teardown_calls p
        ++ [ASetTimeout (CbPlay None) 100])
     ++ [AAwait (KConfigured None)]
     ++ (teardown_calls (set_audioQueue (tail (audioQueue p))
                           (set_isFFmpegConfigured true p1))
           ++ [AWriteLatch false; AProbe (Some next); AAwait KProbed])
     ++ (AEmit (EvEnd (Some next))
           :: teardown_calls (loading next
                                (cleaned (set_audioQueue (tail (audioQueue p))
                                            (set_isFFmpegConfigured true p1))))
           ++ [advance (head (tail (audioQueue p)))])
     ++ [])
    = EvStop (currentTrack p) :: EvEnd (Some next)
        :: (if truthy (head (tail (audioQueue p))) then [] else [EvQueueEnd])).
  { change (AEmit (EvEnd (Some next))
             :: teardown_calls (loading next
                                  (cleaned (set_audioQueue (tail (audioQueue p))
                                              (set_isFFmpegConfigured true p1))))
             ++ [advance (head (tail (audioQueue p)))])
      with ([AEmit (EvEnd (Some next))]
             ++ teardown_calls (loading next
                                  (cleaned (set_audioQueue (tail (audioQueue p))
                                              (set_isFFmpegConfigured true p1))))
             ++ [advance (head (tail (audioQueue p)))]).
    rewrite !events_app, !teardown_calls_no_event. unfold advance.
    destruct (truthy (head (tail (audioQueue p)))); reflexivity. }
  split; [exact Hev|]. split.
  { unfold count. rewrite Hev.
    destruct (truthy (head (tail (audioQueue p)))); reflexivity. }
  split; [reflexivity|]. split; [reflexivity|].
  destruct p as [[|x [|y q]] cfg pl pa ct pt c s st h latch]; reflexivity.
Qed.

Lemma late_close_ends_next_track_witness :
  events (trace_of (run (files ["a.mp3"; "b.mp3"])
                      (skip_then_late_close (mkFormat 2 44100 16)) playing_example))
  = [EvStop (Some "a.mp3"); EvEnd (Some "b.mp3"); EvQueueEnd].
Proof.
  apply (late_close_ends_next_track (files ["a.mp3"; "b.mp3"]) playing_example
           "b.mp3" (mkFormat 2 44100 16));
    first [reflexivity | split; reflexivity].
Defined.

Lemma tally_teardown_other (f : Action -> bool) (p : Player) :
  (forall h, f (AClearInterval h) = false) ->
  (forall c, f (AKill c) = false) ->
  (forall s, f (AEnd s) = false) ->
  tally f (teardown_calls p) = 0.
Proof.
  intros Hh Hc Hs. unfold teardown_calls, tally.
  destruct (progressInterval p) as [h|], (ffmpegCommand p) as [c|],
    (speaker p) as [s|];
    match goal with
    | |- context [filter _ ?l] => let l' := eval cbv in l in change l with l'
    end;
    repeat (rewrite filter_cons_False by (rewrite ?Hh, ?Hc, ?Hs; discriminate));
    reflexivity.
Qed.

Lemma tally_teardown_none (p : Player) :
  ffmpegCommand p = None -> speaker p = None ->
  tally is_teardown (teardown_calls p) = 0.
Proof.
  intros Hc Hs. unfold teardown_calls. rewrite Hc, Hs.
  destruct (progressInterval p); reflexivity.
Qed.

(** X22: the [isPlaying] test does not hold back a second [play()] made in
    the same turn as the first.  On an idle controller with no sink or
    decoder, two calls [play(a)] and [play(b)] for existing files both get
    past the test; once both have been resumed and both probes have
    answered, two sinks have been created and none ended or killed, both
    decoders were built on [b], no event has been emitted yet, and the
    controller references only the second sink. *)
Theorem play_guard_misses_same_turn_calls (env : Env) (p : Player)
  (a b : string) (metadata : AudioFormat) :
  isPlaying p = false ->
  ffmpegCommand p = None ->
  speaker p = None ->
  isFFmpegConfigured p || detectFFmpeg env = true ->
  playable env a ->
  playable env b ->
  let r := run env (double_play a b metadata) p in
  tally is_new_speaker (trace_of r) = 2
  /\ tally is_teardown (trace_of r) = 0
  /\ tally (is_pipe_of b) (trace_of r) = 2
  /\ events (trace_of r) = []
  /\ currentTrack (state_of r) = Some b
  /\ speaker (state_of r) = Some (mkSpeaker metadata).
Proof.
  intros Hp Hc Hs Hok [Hta Hea] [Htb Heb]. cbv zeta.
  set (p0 := set_isFFmpegConfigured true p).
  set (p1 := loading a (cleaned p0)).
  set (p2 := loading b (cleaned (set_isFFmpegConfigured true p1))).
  assert (Hra : resolved (Some a) p0 = (Some a, p0))
    by (unfold resolved; unfold_m; rewrite Hta; reflexivity).
  assert (Hrb : resolved (Some b) (set_isFFmpegConfigured true p1)
                = (Some b, set_isFFmpegConfigured true p1))
    by (unfold resolved; unfold_m; rewrite Htb; reflexivity).
  assert (Hrun : run env (double_play a b metadata) p
    = (tt,
       set_ffmpegCommand
         (Some (mkCommand (Some b) (channels metadata) (sampleRate metadata)))
         (set_speaker (Some (mkSpeaker metadata))
            (set_ffmpegCommand
               (Some (mkCommand (Some b) (channels metadata) (sampleRate metadata)))
               (set_speaker (Some (mkSpeaker metadata)) p2))),
       [AAwait (KConfigured (Some a))]
       ++ [AAwait (KConfigured (Some b))]
       ++ (teardown_calls p0
             ++ [AWriteLatch false; AProbe (Some a); AAwait KProbed])
       ++ (teardown_calls (set_isFFmpegConfigured true p1)
             ++ [AWriteLatch false; AProbe (Some b); AAwait KProbed])
       ++ [ANewSpeaker (mkSpeaker metadata);
           APipe (mkCommand (Some b) (channels metadata) (sampleRate metadata))
             (mkSpeaker metadata)]
       ++ [ANewSpeaker (mkSpeaker metadata);
           APipe (mkCommand (Some b) (channels metadata) (sampleRate metadata))
             (mkSpeaker metadata)]
       ++ [])).
  { unfold double_play. rewrite run_cons. cbn [exec].
    rewrite (play_idle_eq (Some a) p Hp). cbv beta iota.
    rewrite run_cons. cbn [exec].
    rewrite (play_idle_eq (Some b) p Hp). cbv beta iota.
    rewrite run_cons. cbn [exec resume_cont].
    rewrite (play_configured_playable env (Some a) p a Hok)
      by (fold p0; rewrite ?Hra; first [reflexivity | assumption]).
    fold p0. rewrite Hra. cbn [fst snd]. fold p1. cbv beta iota.
    rewrite run_cons. cbn [exec resume_cont].
    rewrite (play_configured_playable env (Some b) p1 b)
      by (rewrite ?Hrb; first [reflexivity | assumption]).
    rewrite Hrb. cbn [fst snd]. fold p2. cbv beta iota.
    rewrite run_cons. cbn [exec resume_cont].
    rewrite play_probed_completed_eq. cbv beta iota.
    rewrite run_cons. cbn [exec resume_cont].
    rewrite play_probed_completed_eq. cbv beta iota.
    cbn [run]. unfold ret. reflexivity. }
  rewrite Hrun. unfold trace_of, state_of; cbn [fst snd].
  assert (Hnone0 : tally is_teardown (teardown_calls p0) = 0)
    by (apply tally_teardown_none; assumption).
  assert (Hnone1 : tally is_teardown
                     (teardown_calls (set_isFFmpegConfigured true p1)) = 0)
    by (apply tally_teardown_none; reflexivity).
  split; [|split; [|split; [|split; [|split]]]].
  - rewrite !tally_app, !tally_teardown_other by reflexivity. reflexivity.
  - rewrite !tally_app, Hnone0, Hnone1. reflexivity.
  - rewrite !tally_app, !tally_teardown_other by reflexivity.
    unfold tally. cbn. rewrite !bool_decide_eq_true_2 by reflexivity.
    reflexivity.
  - rewrite !events_app, !teardown_calls_no_event. reflexivity.
  - reflexivity.
  - reflexivity.
Qed.

Lemma play_guard_misses_same_turn_calls_witness :
  tally is_new_speaker
    (trace_of (run (files ["a.mp3"; "b.mp3"])
                 (double_play "a.mp3" "b.mp3" (mkFormat 2 44100 16))
                 (new_Player []))) = 2.
Proof.
  exact (proj1 (play_guard_misses_same_turn_calls
                  (files ["a.mp3"; "b.mp3"]) (new_Player [])
                  "a.mp3" "b.mp3" (mkFormat 2 44100 16)
                  eq_refl eq_refl eq_refl eq_refl
                  (conj eq_refl eq_refl) (conj eq_refl eq_refl))).
Defined.
